(** * mm1-unarchive: the ASH0 bundle splitter and the repackaging pipeline

    A shallow embedding of [src/main.go]: [splitAsh0Bundle],
    [convertLevelData] and the record loop of [extract_file].  The
    repository's second source file is a variant of the same program; its
    [splitAsh0Bundle], which differs, is in [Legacy] below.

    Conventions.
    - A Go [[]byte] is a [list byte]; a Go [string] is a [string].
    - Loop indices are Go [int]s that stay within [0 .. len(data)+3], far
      below 2^63, so they are [nat]; [start] holds [-1] and is a [Z].
    - A run-time panic, [os.Exit] and [log.Fatal] end the process: they are
      the [Halt] outcomes.  Nothing in the program recovers from a panic.
    - A Go [error] result is an [option error], [None] being [nil]. *)

From Stdlib Require Import ZArith Lia Strings.Byte Strings.Ascii.
From stdpp Require Import base option list strings gmap.

Set Default Proof Using "Type".
Set Warnings "-clear-no-such-hyp".

(** ** Outcomes of a call *)

Inductive error : Type :=
  | errors_New (msg : string)   (* errors.New(msg) *)
  | io_EOF                      (* io.EOF *)
  | tar_ErrWriteTooLong         (* archive/tar: write too long *)
  | url_Error (msg : string)    (* an error of url.Parse *)
  | io_Error (code : nat).      (* an error of the operating system *)

Inductive panic : Type :=
  | index_out_of_range
  | slice_bounds_out_of_range.

Inductive halt : Type :=
  | runtime_panic (p : panic)
  | os_Exit (code : Z)
  | log_Fatal (e : error).      (* log.Fatal(e): print e, then os.Exit(1) *)

Inductive outcome (A : Type) : Type :=
  | Ret (a : A)
  | Halt (h : halt).
Arguments Ret {A} a.
Arguments Halt {A} h.

#[global] Instance outcome_ret : MRet outcome := @Ret.
#[global] Instance outcome_bind : MBind outcome := λ A B f m,
  match m with
  | Ret a => f a
  | Halt h => Halt h
  end.
#[global] Instance outcome_fmap : FMap outcome := λ A B f m,
  match m with
  | Ret a => Ret (f a)
  | Halt h => Halt h
  end.

#[global] Instance byte_eq_dec : EqDecision byte := Byte.byte_eq_dec.

(** ** Slices *)

(** [data[i]]: a checked index. *)
Definition index {A} (data : list A) (i : nat) : outcome A :=
  match data !! i with
  | Some b => Ret b
  | None => Halt (runtime_panic index_out_of_range)
  end.

(** [data[lo:hi]]: a checked slice expression. *)
Definition slice {A} (data : list A) (lo hi : Z) : outcome (list A) :=
  if decide (0 ≤ lo ∧ lo ≤ hi ∧ hi ≤ Z.of_nat (length data))%Z
  then Ret (take (Z.to_nat hi - Z.to_nat lo) (drop (Z.to_nat lo) data))
  else Halt (runtime_panic slice_bounds_out_of_range).

(** Go's [a && b]: [b] is evaluated only when [a] is true. *)
Definition and_then (a b : outcome bool) : outcome bool :=
  x ← a; if x : bool then b else Ret false.
Infix "&&&" := and_then (at level 40, left associativity).

(** [data[i] == c] *)
Definition byte_is (data : list byte) (i : nat) (c : byte) : outcome bool :=
  b ← index data i; Ret (Byte.eqb b c).

(** ** splitAsh0Bundle *)

Definition ASH0 : list byte := ["A"; "S"; "H"; "0"]%byte.

(** The condition of the [if] in the scan loop:
    [data[i] == 'A' && data[i+1] == 'S' && data[i+2] == 'H' && data[i+3] == '0'] *)
Definition ash0_at (data : list byte) (i : nat) : outcome bool :=
  byte_is data i "A" &&& byte_is data (i + 1) "S"
    &&& byte_is data (i + 2) "H" &&& byte_is data (i + 3) "0".

(** The [for i := 0; i < len(data); i++] loop, [n] iterations being left;
    the state is [(splitData, start)]. *)
Fixpoint scan (data : list byte) (n i : nat)
    (splitData : list (list byte)) (start : Z) : outcome (list (list byte) * Z) :=
  match n with
  | O => Ret (splitData, start)
  | S n' =>
      m ← ash0_at data i;
      if m : bool then
        if decide (start ≠ (-1)%Z) then
          seg ← slice data start (Z.of_nat i);
          scan data n' (S i) (splitData ++ [seg]) (Z.of_nat i)
        else scan data n' (S i) splitData (Z.of_nat i)
      else scan data n' (S i) splitData start
  end.

(** [main.go]: without a marker the process prints the buffer and exits. *)
Definition splitAsh0Bundle (data : list byte) : outcome (list (list byte)) :=
  '(splitData, start) ← scan data (length data) 0 [] (-1)%Z;
  if decide (start = (-1)%Z) then Halt (os_Exit 1)
  else
    seg ← slice data start (Z.of_nat (length data));
    Ret (splitData ++ [seg]).

Module Legacy.
(** The variant: no guard after the loop, [data[start:]] is taken with
    whatever [start] holds. *)
Definition splitAsh0Bundle (data : list byte) : outcome (list (list byte)) :=
  '(splitData, start) ← scan data (length data) 0 [] (-1)%Z;
  seg ← slice data start (Z.of_nat (length data));
  Ret (splitData ++ [seg]).
End Legacy.

(** ** The scan loop, seen from the bytes still to read *)

(** After the loop: the exit on [start == -1] (or, in the variant, the
    panic of [data[start:]]), then the last segment. *)
Definition finish_at (on_none : bool) (data : list byte)
    (r : list (list byte) * Z) : outcome (list (list byte)) :=
  if decide (r.2 = (-1)%Z) then
    Halt (if on_none then os_Exit 1 else runtime_panic slice_bounds_out_of_range)
  else
    seg ← slice data r.2 (Z.of_nat (length data));
    Ret (r.1 ++ [seg]).

(** [data[start:i]], or nothing while no marker has been seen. *)
Definition cur_of (data : list byte) (i : nat) (start : Z) : option (list byte) :=
  if decide (start = (-1)%Z) then None
  else Some (take (i - Z.to_nat start) (drop (Z.to_nat start) data)).

(** The loop on the remaining bytes [rest]: [cur] is the segment begun at the
    last marker, up to the current position. *)
Fixpoint scan_rest (rest : list byte) (acc : list (list byte))
    (cur : option (list byte)) : outcome (list (list byte) * option (list byte)) :=
  match rest with
  | [] => Ret (acc, cur)
  | b :: rest' =>
      m ← ash0_at rest 0;
      if m : bool then scan_rest rest' (acc ++ option_list cur) (Some [b])
      else scan_rest rest' acc ((λ c, c ++ [b]) <$> cur)
  end.

Definition finish (on_none : bool)
    (r : list (list byte) * option (list byte)) : outcome (list (list byte)) :=
  match r.2 with
  | None => Halt (if on_none then os_Exit 1 else runtime_panic slice_bounds_out_of_range)
  | Some c => Ret (r.1 ++ [c])
  end.

(** ** Occurrences *)

(** [strings.Contains] / [bytes.Contains]: [sub] occurs somewhere in [s]. *)
Fixpoint strings_Contains (s sub : list byte) : bool :=
  bool_decide (sub `prefix_of` s) ||
  match s with
  | [] => false
  | _ :: s' => strings_Contains s' sub
  end.

(** Index of the first occurrence of [sub] in [s]. *)
Fixpoint strings_Index (s sub : list byte) : option nat :=
  if bool_decide (sub `prefix_of` s) then Some 0
  else match s with
       | [] => None
       | _ :: s' => S <$> strings_Index s' sub
       end.

(** The buffer stops in the middle of a marker: its last bytes are
    "A", "AS" or "ASH". *)
Definition cut_marker_tail (data : list byte) : bool :=
  bool_decide (["A"]%byte `suffix_of` data)
  || bool_decide (["A"; "S"]%byte `suffix_of` data)
  || bool_decide (["A"; "S"; "H"]%byte `suffix_of` data).

(** ** Library routines the pipeline calls *)

Definition defaultBufSize : nat := 4096.

Fixpoint IndexByte (s : list byte) (c : byte) : option nat :=
  match s with
  | [] => None
  | b :: s' => if decide (b = c) then Some 0 else S <$> IndexByte s' c
  end.

(** [line[:len(line)-1]] when the line ends in a carriage return. *)
Definition drop_cr (line : list byte) : list byte :=
  if decide (last line = Some x0d) then take (length line - 1) line else line.

(** [bufio.NewReader(bytes.NewReader(data)).ReadLine()], first call: the
    reader's buffer holds [defaultBufSize] bytes.  The result is
    [(line, isPrefix, err)]:
    - an empty input gives [io.EOF];
    - a line feed within the buffer ends the line, and the line feed and a
      carriage return before it are dropped;
    - a full buffer without a line feed is returned as a prefix (a trailing
      carriage return is put back);
    - a shorter input without a line feed is returned whole. *)
Definition ReadLine (data : list byte) : list byte * bool * option error :=
  match data with
  | [] => ([], false, Some io_EOF)
  | _ =>
      let buf := take defaultBufSize data in
      match IndexByte buf x0a with
      | Some k => (drop_cr (take k buf), false, None)
      | None =>
          if decide (defaultBufSize ≤ length data) then (drop_cr buf, true, None)
          else (data, false, None)
      end
  end.

(** [strings.Split(s, sep)] for a separator of one character. *)
Fixpoint strings_Split (s : string) (sep : ascii) : list string :=
  match s with
  | EmptyString => [EmptyString]
  | String c s' =>
      if decide (c = sep) then EmptyString :: strings_Split s' sep
      else match strings_Split s' sep with
           | [] => [String c EmptyString]
           | p :: ps => String c p :: ps
           end
  end.

(** ** The world: output files, progress bar, clock, input/output faults *)

(** [tar.Header], the fields the program sets. *)
Record tar_Header : Type := {
  Name : string;
  Size : Z;
  Mode : Z;
  ModTime : Z
}.

(** One entry of a tar archive: its header and the bytes written after it. *)
Record Entry : Type := {
  Header : tar_Header;
  Body : list byte
}.

(** How far the writing of an archive has come.  The entries go through
    three writers, the tar writer into the zstd writer into the file, which
    buffer what they are given; the three deferred [Close] calls flush them
    in that order.
    - [writing]: the file has been created and its writers are open;
    - [broken]: a [WriteHeader] or [Write] has failed; the tar writer keeps
      that error and its [Close] will not write the trailer;
    - [tar_closed], [zstd_closed]: [tarWriter.Close()], then also
      [zstWriter.Close()], have succeeded;
    - [complete]: [file.Close()] has succeeded too. *)
Inductive archive_stage : Type :=
  | writing | broken | tar_closed | zstd_closed | complete.

#[global] Instance archive_stage_eq_dec : EqDecision archive_stage.
Proof. solve_decision. Defined.

(** - [fs]: the files under [output/], by path, each with the sequence of
      tar entries that have been written to its archive (the zstd and tar
      codecs are lossless containers); a created file with nothing written
      is [[]].
    - [stage]: how far the writing of each of these archives has come.  The
      file on disk is the whole archive of the entries in [fs] only at stage
      [complete]; before, it holds an unknown part of the compressed stream.
    - [bar]: the count of the progress bar.
    - [clock]: what [time.Now()] returns.
    - [io k]: the result of the [k]-th fallible input/output call of the run
      ([None]: the call succeeds); [calls] counts the calls made so far. *)
Record World : Type := {
  fs : gmap string (list Entry);
  stage : gmap string archive_stage;
  bar : nat;
  clock : Z;
  io : nat → option error;
  calls : nat
}.

Definition set_fs (f : gmap string (list Entry)) (w : World) : World :=
  {| fs := f; stage := stage w; bar := bar w; clock := clock w; io := io w;
     calls := calls w |}.
Definition set_stage (s : gmap string archive_stage) (w : World) : World :=
  {| fs := fs w; stage := s; bar := bar w; clock := clock w; io := io w;
     calls := calls w |}.
Definition set_bar (n : nat) (w : World) : World :=
  {| fs := fs w; stage := stage w; bar := n; clock := clock w; io := io w;
     calls := calls w |}.
Definition set_calls (n : nat) (w : World) : World :=
  {| fs := fs w; stage := stage w; bar := bar w; clock := clock w; io := io w;
     calls := n |}.

(** The next [n] input/output calls succeed. *)
Definition io_ok (n : nat) (w : World) : Prop :=
  ∀ k, k < n → io w (calls w + k) = None.

(** A call in a world: its outcome and the world it leaves. *)
Definition M (A : Type) : Type := World → outcome A * World.

Definition retM {A} (a : A) : M A := λ w, (Ret a, w).
Definition bindM {A B} (m : M A) (f : A → M B) : M B := λ w,
  match m w with
  | (Ret a, w') => f a w'
  | (Halt h, w') => (Halt h, w')
  end.
Definition lift {A} (o : outcome A) : M A := λ w, (o, w).

Notation "x ⇐ m ; k" := (bindM m (λ x, k))
  (at level 20, m at level 100, k at level 200, right associativity, only parsing).
(** [err := m; if err != nil { return err }; k] *)
Notation "'check' m ; k" :=
  (bindM m (λ err, match err with Some e => retM (Some e) | None => k end))
  (at level 20, m at level 100, k at level 200, right associativity, only parsing).

(** The result of the next fallible input/output call. *)
Definition pop_io : M (option error) := λ w,
  (Ret (io w (calls w)), set_calls (S (calls w)) w).

Definition time_Now : M Z := λ w, (Ret (clock w), w).

(** [os.Create(path)]: creates the file or truncates it. *)
Definition os_Create (path : string) : M (option error) :=
  check pop_io;
  λ w, (Ret None,
        set_stage (<[path := writing]> (stage w)) (set_fs (<[path := []]> (fs w)) w)).

(** [zstd.NewWriter(file, ...)] *)
Definition zstd_NewWriter : M (option error) := pop_io.

(** [tarWriter.WriteHeader(hdr)] on the archive at [path]. *)
Definition tar_WriteHeader (path : string) (hdr : tar_Header) : M (option error) :=
  e ⇐ pop_io;
  match e with
  | Some err => λ w, (Ret (Some err), set_stage (<[path := broken]> (stage w)) w)
  | None =>
      λ w, (Ret None,
            set_fs (<[path := default [] (fs w !! path) ++ [{| Header := hdr; Body := [] |}]]> (fs w)) w)
  end.

(** The body of the last entry becomes [b]. *)
Fixpoint write_last (es : list Entry) (b : list byte) : list Entry :=
  match es with
  | [] => []
  | [e] => [{| Header := Header e; Body := b |}]
  | e :: es' => e :: write_last es' b
  end.

Definition last_Size (es : list Entry) : Z :=
  match last es with
  | Some e => Size (Header e)
  | None => 0
  end.

(** [tarWriter.Write(b)]: at most [Size] bytes go into the current entry. *)
Definition tar_Write (path : string) (b : list byte) : M (option error) :=
  e ⇐ pop_io;
  match e with
  | Some err => λ w, (Ret (Some err), set_stage (<[path := broken]> (stage w)) w)
  | None =>
      λ w,
        let es := default [] (fs w !! path) in
        if decide (Z.of_nat (length b) ≤ last_Size es)%Z
        then (Ret None, set_fs (<[path := write_last es b]> (fs w)) w)
        else (Ret (Some tar_ErrWriteTooLong),
              set_fs (<[path := write_last es (take (Z.to_nat (last_Size es)) b)]> (fs w)) w)
  end.

(** One of the three [Close] calls on the archive at [path]: when it
    succeeds and the archive is at stage [from], the archive gets to stage
    [to]. *)
Definition close_step (path : string) (from to : archive_stage) : M (option error) :=
  e ⇐ pop_io;
  match e with
  | Some err => retM (Some err)
  | None =>
      λ w, (Ret None,
            if decide (stage w !! path = Some from)
            then set_stage (<[path := to]> (stage w)) w
            else w)
  end.

(** [tarWriter.Close()], [zstWriter.Close()], [file.Close()] *)
Definition tarWriter_Close (path : string) : M (option error) :=
  close_step path writing tar_closed.
Definition zstWriter_Close (path : string) : M (option error) :=
  close_step path tar_closed zstd_closed.
Definition file_Close (path : string) : M (option error) :=
  close_step path zstd_closed complete.

(** Deferred calls run when the function returns and when it panics, not
    when the process exits. *)
Definition runs_deferred {A} (o : outcome A) : bool :=
  match o with
  | Ret _ => true
  | Halt (runtime_panic _) => true
  | Halt _ => false
  end.

(** [defer d(); body]: the result of the deferred call is dropped. *)
Definition defer {A B} (d : M B) (body : M A) : M A := λ w,
  let '(o, w') := body w in
  if runs_deferred o then (o, (d w').2) else (o, w').

(** The three deferred [Close] calls of [convertLevelData], in the order in
    which they run. *)
Definition deferred_Closes (path : string) (w : World) : World :=
  (file_Close path (zstWriter_Close path (tarWriter_Close path w).2).2).2.

(** What the three deferred calls make of the outcome [r] of the code they
    enclose. *)
Definition closing {A} (path : string) (r : outcome A * World) : outcome A * World :=
  if runs_deferred r.1 then (r.1, deferred_Closes path r.2) else r.

Definition bar_Add (n : nat) : M unit := λ w, (Ret (), set_bar (bar w + n) w).

(** [log.Fatal(e)] *)
Definition fatal {A} (e : error) : M A := λ w, (Halt (log_Fatal e), w).

(** A WARC record, as the loop reads it: [Header.Get("WARC-Type")],
    [Header.Get("WARC-Target-URI")] and the bytes of [Content]. *)
Record warc_Record : Type := {
  WARC_Type : string;
  WARC_Target_URI : string;
  Content : list byte
}.

(** [url.URL], the field the program reads. *)
Record URL : Type := { Path : string }.

(** [io.ReadAll(record.Content)] *)
Definition io_ReadAll (record : warc_Record) : M (list byte + error) :=
  e ⇐ pop_io;
  match e with
  | Some err => retM (inr err)
  | None => retM (inl (Content record))
  end.

(** ** convertLevelData and extract_file *)

Definition fileNames : list string :=
  ["thumbnail0.tnl"; "course_data.cdt"; "course_data_sub.cdt"; "thumbnail1.tnl"].

Definition output_path (id : string) : string := "output/" +:+ id +:+ ".tar.zst".

(** The entry written for a decoded segment [d] under [name] at time [now]. *)
Definition entry_of (now : Z) (name : string) (d : list byte) : Entry :=
  {| Header := {| Name := name; Size := Z.of_nat (length d);
                  Mode := 420; ModTime := now |};
     Body := d |}.

(** [pathParts[len(pathParts)-1]] for [pathParts := strings.Split(path, "/")]. *)
Definition baseName (path : string) : string :=
  default "" (last (strings_Split path "/")).

Section Pipeline.

(** The two functions of other packages that the pipeline takes as given:
    [ash0.Decompress], whose result is a slice ([None]: the nil slice), and
    [url.Parse]. *)
Context (Decompress : list byte → option (list byte)).
Context (url_Parse : string → URL + error).

(** The [for i, fileName := range fileNames] loop from index [i] on. *)
Fixpoint write_entries (path : string) (splitData : list (list byte))
    (i : nat) (names : list string) : M (option error) :=
  match names with
  | [] => retM None
  | fileName :: names' =>
      seg ⇐ lift (index splitData i);
      match Decompress seg with
      | None => retM (Some (errors_New "failed to decompress"))
      | Some decompressed =>
          now ⇐ time_Now;
          check tar_WriteHeader path
            {| Name := fileName; Size := Z.of_nat (length decompressed);
               Mode := 420 (* 0644 *); ModTime := now |};
          check tar_Write path decompressed;
          write_entries path splitData (S i) names'
      end
  end.

(** The diagnostics printed with [println] are left out. *)
Definition convertLevelData (id : string) (data : list byte) : M (option error) :=
  let '(status, _, err) := ReadLine data in
  match err with
  | Some e => retM (Some e)
  | None =>
      if negb (strings_Contains status ["2"; "0"; "0"]%byte) then retM None
      else
        check os_Create (output_path id);
        defer (file_Close (output_path id)) (
        check zstd_NewWriter;
        defer (zstWriter_Close (output_path id)) (
        defer (tarWriter_Close (output_path id)) (
        splitData ⇐ lift (splitAsh0Bundle data);
        if decide (length splitData ≠ length fileNames)
        then retM (Some (errors_New "failed to split data"))
        else write_entries (output_path id) splitData 0 fileNames)))
  end.

(** The record loop of [extract_file]; [records] is what
    [reader.ReadRecord()] yields before its first error, which ends the
    loop.  What comes before the loop (opening the index and the archive,
    which panics on failure, and setting up the progress bar) is not part
    of the model. *)
Fixpoint extract_file (records : list warc_Record) : M unit :=
  match records with
  | [] => retM ()
  | record :: records' =>
      if decide (WARC_Type record ≠ "response") then extract_file records'
      else
        match url_Parse (WARC_Target_URI record) with
        | inr e => fatal e
        | inl link =>
            let pathParts := strings_Split (Path link) "/" in
            fileName ⇐ lift (index pathParts (length pathParts - 1));
            r ⇐ io_ReadAll record;
            match r with
            | inr e => fatal e
            | inl data =>
                err ⇐ convertLevelData fileName data;
                match err with
                | Some e => fatal e
                | None => _ ⇐ bar_Add 1; extract_file records'
                end
            end
        end
  end.

End Pipeline.

(** ** The variant's convertLevelData *)

Module LegacyPipeline.
(** [convertLevelData] of the second source file: the output file is created
    at once, whatever the payload's first line says. *)
Definition convertLevelData (Decompress : list byte → option (list byte))
    (id : string) (data : list byte) : M (option error) :=
  check os_Create (output_path id);
  defer (file_Close (output_path id)) (
  check zstd_NewWriter;
  defer (zstWriter_Close (output_path id)) (
  defer (tarWriter_Close (output_path id)) (
  splitData ⇐ lift (Legacy.splitAsh0Bundle data);
  if decide (length splitData ≠ length fileNames)
  then retM (Some (errors_New "failed to split data"))
  else write_entries Decompress (output_path id) splitData 0 fileNames))).
End LegacyPipeline.

(** ** extract_dir and main: which archives are processed *)

Definition chars (s : string) : list ascii := String.list_ascii_of_string s.

(** [strings.HasSuffix(s, suffix)] *)
Definition strings_HasSuffix (s suffix : string) : bool :=
  bool_decide (chars suffix `suffix_of` chars s).

(** [strings.TrimSuffix(s, suffix)]: [s[:len(s)-len(suffix)]] when [s] ends
    with [suffix], [s] otherwise. *)
Definition strings_TrimSuffix (s suffix : string) : string :=
  if strings_HasSuffix s suffix
  then String.string_of_list_ascii
         (take (length (chars s) - length (chars suffix)) (chars s))
  else s.

(** The first loop of [extract_dir], over the names of the directory's
    entries: the archives to process, in the order of the entries. *)
Fixpoint archiveFiles (dir : string) (names : list string) : list string :=
  match names with
  | [] => []
  | name :: names' =>
      if strings_HasSuffix name ".warc.gz"
      then (dir +:+ "/" +:+ strings_TrimSuffix name ".warc.gz") :: archiveFiles dir names'
      else archiveFiles dir names'
  end.

(** What [main] comes to: a fatal error before any archive is read, or the
    calls of [extract_file] it makes, in order (a call that ends the process
    ends the run with it). *)
Inductive main_outcome : Type :=
  | main_fatal (e : error)
  | main_runs (archiveFiles : list string).

(** [extract_dir(dir, files)]: the calls of [extract_file] it makes, [names]
    being the names of the directory entries. *)
Definition extract_dir (dir : string) (names : list string) : list string :=
  archiveFiles dir names.

(** [main], on its arguments [os.Args[1:]].  [os_Stat path] is [inl isDir]
    or the error of [os.Stat]; [os_ReadDir path] is the names of the entries
    or the error of [os.ReadDir].  The [os.MkdirAll] at the start, whose
    error is dropped, is left out. *)
Definition main (os_Stat : string → bool + error)
    (os_ReadDir : string → list string + error) (args : list string) : main_outcome :=
  match args with
  | [] =>
      main_fatal (errors_New
        "No file specified, please provide a .warc.gz or .warc.os.cdx.gz file")
  | arg :: _ =>
      if strings_HasSuffix arg ".warc.gz"
      then main_runs [strings_TrimSuffix arg ".warc.gz"]
      else if strings_HasSuffix arg ".warc.os.cdx.gz"
      then main_runs [strings_TrimSuffix arg ".warc.os.cdx.gz"]
      else if strings_HasSuffix arg ".warc."
      then main_runs [strings_TrimSuffix arg ".warc."]
      else
        match os_Stat arg with
        | inr e => main_fatal e
        | inl true =>
            match os_ReadDir arg with
            | inr e => main_fatal e
            | inl names => main_runs (extract_dir arg names)
            end
        | inl false =>
            main_fatal (errors_New
              "Invalid file type, must be a .warc.gz or .warc.os.cdx.gz file, and both should be in the same directory")
        end
  end.

(** ** Measures used in the properties *)

(** The number of positions of [data] where the marker stands. *)
Fixpoint marker_count (data : list byte) : nat :=
  (if bool_decide (ASH0 `prefix_of` data) then 1 else 0)
  + match data with
    | [] => 0
    | _ :: data' => marker_count data'
    end.

(** [w'] differs from [w] at most in the file [path] and in the count of
    input/output calls, which has grown by at most [n]. *)
Definition touches_only (path : string) (n : nat) (w w' : World) : Prop :=
  (∀ p, p ≠ path → fs w' !! p = fs w !! p)
  ∧ (∀ p, p ≠ path → stage w' !! p = stage w !! p)
  ∧ bar w' = bar w ∧ clock w' = clock w ∧ io w' = io w
  ∧ calls w ≤ calls w' ≤ calls w + n.

(** ** Sample inputs *)

(** A directory [crawl] with two pairs of files and a stray file. *)
Definition sample_os_Stat (path : string) : bool + error :=
  if decide (path = "crawl") then inl true else inr (io_Error 2).

Definition sample_os_ReadDir (path : string) : list string + error :=
  if decide (path = "crawl")
  then inl ["notes.txt"; "part1.warc.gz"; "part1.warc.os.cdx.gz";
            "part2.warc.gz"; "part2.warc.os.cdx.gz"]
  else inr (io_Error 2).

Definition bytes (s : string) : list byte := String.list_byte_of_string s.

(** A decoder that drops the four marker bytes, and gives the nil slice for a
    segment that holds nothing else. *)
Definition sample_Decompress (seg : list byte) : option (list byte) :=
  match drop 4 seg with
  | [] => None
  | d => Some d
  end.

(** A decoder whose result is always an empty slice that is not nil. *)
Definition empty_Decompress (seg : list byte) : option (list byte) := Some [].

Definition sample_url_Parse (uri : string) : URL + error := inl {| Path := uri |}.

Definition w0 : World :=
  {| fs := ∅; stage := ∅; bar := 0; clock := 0; io := λ _, None; calls := 0 |}.

(** A world that already holds an archive for "lvl" and one for "other". *)
Definition w_old : World :=
  {| fs := <[output_path "lvl" := [entry_of 5 "old" (String.list_byte_of_string "x")]]>
             (<[output_path "other" := [entry_of 5 "kept" []]]> ∅);
     stage := <[output_path "lvl" := complete]> (<[output_path "other" := complete]> ∅);
     bar := 3; clock := 9; io := λ _, None; calls := 20 |}.

(** A world whose fifth input/output call fails. *)
Definition w_fail : World :=
  {| fs := ∅; stage := ∅; bar := 0; clock := 0;
     io := λ k, if decide (k = 4) then Some (io_Error 28) else None; calls := 0 |}.

(** A world in which [zstWriter.Close()], the twelfth call, fails. *)
Definition w_close_fail : World :=
  {| fs := ∅; stage := ∅; bar := 0; clock := 0;
     io := λ k, if decide (k = 11) then Some (io_Error 28) else None; calls := 0 |}.

Definition crlf : list byte := [x0d; x0a].

Definition status_200 : list byte := bytes "HTTP/1.1 200 OK".
Definition status_404 : list byte := bytes "HTTP/1.1 404 Not Found".

Definition payload_ok : list byte :=
  status_200 ++ crlf ++ crlf
  ++ ASH0 ++ bytes "aa" ++ ASH0 ++ bytes "b" ++ ASH0 ++ bytes "ccc" ++ ASH0 ++ bytes "d".

Definition payload_404 : list byte := status_404 ++ crlf ++ crlf.

Definition payload_three : list byte :=
  status_200 ++ crlf ++ crlf
  ++ ASH0 ++ bytes "aa" ++ ASH0 ++ bytes "b" ++ ASH0 ++ bytes "ccc".

Definition payload_three_404 : list byte :=
  status_404 ++ crlf ++ crlf
  ++ ASH0 ++ bytes "aa" ++ ASH0 ++ bytes "b" ++ ASH0 ++ bytes "ccc".

Definition payload_no_marker : list byte :=
  status_200 ++ crlf ++ crlf ++ bytes "no bundle here".

(** The third segment is a bare marker, which [sample_Decompress] refuses. *)
Definition payload_bare : list byte :=
  status_200 ++ crlf ++ crlf
  ++ ASH0 ++ bytes "aa" ++ ASH0 ++ bytes "b" ++ ASH0 ++ ASH0 ++ bytes "d".

Definition response (uri : string) (content : list byte) : warc_Record :=
  {| WARC_Type := "response"; WARC_Target_URI := uri; Content := content |}.

(** * Properties *)

(** ** The marker test *)

Lemma byte_eqb_eq (b c : byte) : Byte.eqb b c = true ↔ b = c.
Proof. split; [apply byte_dec_bl | apply byte_dec_lb]. Qed.

Ltac byte_cases :=
  repeat match goal with
  | |- context [Byte.eqb ?b ?c] =>
      let E := fresh "E" in
      destruct (Byte.eqb b c) eqn:E;
      [apply byte_dec_bl in E; try subst b | apply eqb_false in E]
  | H : context [Byte.eqb ?b ?c] |- _ =>
      let E := fresh "E" in
      destruct (Byte.eqb b c) eqn:E;
      [apply byte_dec_bl in E; try subst b | apply eqb_false in E]
  end.

Lemma ash0_at_drop data i : ash0_at data i = ash0_at (drop i data) 0.
Proof.
  unfold ash0_at, byte_is, index. rewrite !lookup_drop.
  by rewrite Nat.add_0_r.
Qed.

Lemma ash0_at_true l : ash0_at l 0 = Ret true ↔ ASH0 `prefix_of` l.
Proof.
  split.
  - destruct l as [|b0 [|b1 [|b2 [|b3 l]]]]; cbn; byte_cases; try done.
    intros _. by exists l.
  - intros [k ->]. reflexivity.
Qed.

Lemma ash0_at_false l : ash0_at l 0 = Ret false → ¬ ASH0 `prefix_of` l.
Proof. intros H Hp. apply ash0_at_true in Hp. congruence. Qed.

(** The test panics exactly when the buffer ends inside the window after a
    partial match. *)
Lemma ash0_at_halt l h :
  ash0_at l 0 = Halt h ↔
  h = runtime_panic index_out_of_range ∧
  (l = [] ∨ l = ["A"]%byte ∨ l = ["A"; "S"]%byte ∨ l = ["A"; "S"; "H"]%byte).
Proof.
  split.
  - destruct l as [|b0 [|b1 [|b2 [|b3 l]]]]; cbn; byte_cases; try done;
      intros [= <-]; naive_solver.
  - intros [-> [->|[->|[->| ->]]]]; reflexivity.
Qed.

(** ** The index loop computes [scan_rest] *)

Lemma slice_take_drop (data : list byte) (s i : nat) :
  s ≤ i ≤ length data →
  slice data (Z.of_nat s) (Z.of_nat i) = Ret (take (i - s) (drop s data)).
Proof.
  intros Hb. unfold slice. rewrite decide_True by lia.
  by rewrite !Nat2Z.id.
Qed.

Lemma cur_of_step data i start b :
  data !! i = Some b → (start = -1 ∨ 0 ≤ start ≤ Z.of_nat i)%Z →
  cur_of data (S i) start = (λ c, c ++ [b]) <$> cur_of data i start.
Proof.
  intros Hb Hs. unfold cur_of. case_decide; [done|]. cbn. f_equal.
  replace (S i - Z.to_nat start) with (S (i - Z.to_nat start)) by lia.
  apply take_S_r. rewrite lookup_drop, <- Hb. f_equal. lia.
Qed.

Lemma cur_of_here data i b :
  data !! i = Some b → cur_of data (S i) (Z.of_nat i) = Some [b].
Proof.
  intros Hb. unfold cur_of. rewrite decide_False by lia. f_equal.
  rewrite Nat2Z.id. replace (S i - i) with 1 by lia.
  by rewrite (drop_S _ _ _ Hb).
Qed.

Lemma scan_scan_rest on_none data n i acc start :
  i + n = length data → (start = -1 ∨ 0 ≤ start ≤ Z.of_nat i)%Z →
  scan data n i acc start ≫= finish_at on_none data
  = scan_rest (drop i data) acc (cur_of data i start) ≫= finish on_none.
Proof.
  revert i acc start. induction n as [|n IH]; intros i acc start Hlen Hs.
  - rewrite drop_ge by lia. cbn. unfold finish_at, finish, cur_of; cbn.
    destruct (decide (start = (-1)%Z)); [done|].
    assert (start = Z.of_nat (Z.to_nat start)) as Hz by lia.
    rewrite Hz at 1. rewrite slice_take_drop by lia. cbn.
    by replace (length data) with i by lia.
  - destruct (lookup_lt_is_Some_2 data i) as [b Hb]; [lia|].
    rewrite (drop_S _ _ _ Hb). cbn [scan scan_rest].
    rewrite <- (drop_S _ _ _ Hb), <- ash0_at_drop.
    destruct (ash0_at data i) as [[|]|h]; cbn; [| |done].
    + case_decide as Hst.
      * assert (start = Z.of_nat (Z.to_nat start)) as Hz by lia.
        rewrite Hz at 1. rewrite slice_take_drop by lia. cbn.
        rewrite IH by lia. rewrite (cur_of_here _ _ _ Hb).
        unfold cur_of. rewrite decide_False by done. done.
      * rewrite IH by lia. rewrite (cur_of_here _ _ _ Hb).
        unfold cur_of. rewrite decide_True by lia. cbn.
        by rewrite app_nil_r.
    + rewrite IH by lia. by rewrite (cur_of_step _ _ _ _ Hb Hs).
Qed.

Lemma splitAsh0Bundle_scan_rest data :
  splitAsh0Bundle data = scan_rest data [] None ≫= finish true.
Proof.
  transitivity (scan data (length data) 0 [] (-1)%Z ≫= finish_at true data).
  - unfold splitAsh0Bundle, finish_at.
    destruct (scan data (length data) 0 [] (-1)%Z) as [[a s]|h]; cbn; [|done].
    by case_decide.
  - rewrite (scan_scan_rest true) by lia. done.
Qed.

Lemma Legacy_splitAsh0Bundle_scan_rest data :
  Legacy.splitAsh0Bundle data = scan_rest data [] None ≫= finish false.
Proof.
  transitivity (scan data (length data) 0 [] (-1)%Z ≫= finish_at false data).
  - unfold Legacy.splitAsh0Bundle, finish_at.
    destruct (scan data (length data) 0 [] (-1)%Z) as [[a s]|h]; cbn; [|done].
    case_decide as Hs; [|done]. subst s. unfold slice.
    by rewrite decide_False by lia.
  - rewrite (scan_scan_rest false) by lia. done.
Qed.

(** ** When the scan panics *)

Lemma cut_marker_tail_cons b l :
  cut_marker_tail (b :: l) = true ↔
  (b :: l = ["A"]%byte ∨ b :: l = ["A"; "S"]%byte ∨ b :: l = ["A"; "S"; "H"]%byte)
  ∨ cut_marker_tail l = true.
Proof.
  unfold cut_marker_tail. rewrite !orb_true_iff, !bool_decide_eq_true. split.
  - intros [[H|H]|H]; apply suffix_cons_inv in H as [H|H]; naive_solver.
  - intros [[H|[H|H]]|[[H|H]|H]]; rewrite ?H; eauto using suffix_cons_r.
Qed.

Lemma scan_rest_halt rest acc cur h :
  scan_rest rest acc cur = Halt h ↔
  h = runtime_panic index_out_of_range ∧ cut_marker_tail rest = true.
Proof.
  revert acc cur. induction rest as [|b rest IH]; intros acc cur.
  - cbn. split; [done | by intros [_ ?]].
  - cbn [scan_rest]. rewrite cut_marker_tail_cons.
    destruct (ash0_at (b :: rest) 0) as [m|h'] eqn:E.
    + assert (¬ (b :: rest = ["A"]%byte ∨ b :: rest = ["A"; "S"]%byte
                 ∨ b :: rest = ["A"; "S"; "H"]%byte)) as Hn.
      { intros Hc.
        assert (ash0_at (b :: rest) 0 = Halt (runtime_panic index_out_of_range))
          by (apply ash0_at_halt; naive_solver).
        congruence. }
      destruct m; cbn; rewrite IH; naive_solver.
    + cbn. apply ash0_at_halt in E as [-> E]. naive_solver.
Qed.

Lemma scan_rest_total rest acc cur :
  cut_marker_tail rest = false → ∃ r, scan_rest rest acc cur = Ret r.
Proof.
  intros Hc. destruct (scan_rest rest acc cur) as [r|h] eqn:E; [by exists r|].
  apply scan_rest_halt in E as [_ E]. congruence.
Qed.

(** ** What the scan returns *)

(** The marker does not overlap itself: a window that reaches into the next
    marker cannot match. *)
Lemma ASH0_no_overlap (c r : list byte) :
  c ≠ [] → ASH0 `prefix_of` c ++ r → ASH0 `prefix_of` r → ASH0 `prefix_of` c.
Proof.
  intros Hc [k1 H1] [k2 ->].
  destruct c as [|c0 [|c1 [|c2 [|c3 c]]]]; [done|..]; simplify_eq/=.
  by exists c.
Qed.

Lemma strings_Contains_Index s sub :
  strings_Contains s sub = true ↔ is_Some (strings_Index s sub).
Proof.
  induction s as [|b s IH]; cbn; case_bool_decide; cbn;
    rewrite ?fmap_is_Some; try done; split; eauto; by intros [? ?].
Qed.

Lemma strings_Contains_false_Index s sub :
  strings_Contains s sub = false ↔ strings_Index s sub = None.
Proof.
  rewrite <- not_true_iff_false, strings_Contains_Index.
  by rewrite eq_None_not_Some.
Qed.

(** [strings_Index] is the first position where [sub] occurs. *)
Lemma strings_Index_first s sub k :
  strings_Index s sub = Some k →
  sub `prefix_of` drop k s ∧ ∀ j, j < k → ¬ sub `prefix_of` drop j s.
Proof.
  revert k. induction s as [|b s IH]; intros k; cbn; case_bool_decide as Hp.
  - intros [= <-]. split; [done|lia].
  - done.
  - intros [= <-]. split; [done|lia].
  - destruct (strings_Index s sub) as [k'|]; [|done]. intros [= <-].
    destruct (IH k' eq_refl) as [Hk Hlt]. split; [done|].
    intros [|j] Hj; [done|]. apply Hlt. lia.
Qed.

(** [strings_Contains] finds exactly the occurrences of [sub]. *)
Lemma strings_Contains_occurs s sub :
  strings_Contains s sub = true ↔ ∃ pre post, s = pre ++ sub ++ post.
Proof.
  split.
  - induction s as [|b s IH]; cbn; rewrite orb_true_iff, bool_decide_eq_true.
    + intros [[k Hk]|?]; [|done]. by exists [], k.
    + intros [[k Hk]|H]; [by exists [], k|].
      destruct (IH H) as (pre & post & ->). by exists (b :: pre), post.
  - intros (pre & post & ->). induction pre as [|b pre IH]; cbn.
    + assert (sub `prefix_of` sub ++ post) as Hp by by exists post.
      destruct (sub ++ post); cbn; by rewrite bool_decide_eq_true_2.
    + by rewrite IH, orb_true_r.
Qed.

(** Once a marker has been seen, no byte is lost: the segments closed so far,
    the open segment and the bytes to come are carried to the result, and
    every segment opens with the marker. *)
Lemma scan_rest_some rest acc c acc' cur' :
  scan_rest rest acc (Some c) = Ret (acc', cur') →
  c ≠ [] → ASH0 `prefix_of` c ++ rest →
  Forall (λ s, ASH0 `prefix_of` s) acc →
  ∃ c', cur' = Some c' ∧ Forall (λ s, ASH0 `prefix_of` s) (acc' ++ [c'])
        ∧ concat acc' ++ c' = concat acc ++ c ++ rest.
Proof.
  revert acc c. induction rest as [|b rest IH]; intros acc c Hrun Hc Hp Hacc.
  - cbn in Hrun. simplify_eq. exists c. rewrite app_nil_r in *.
    split_and!; [done| |done]. apply Forall_app. by rewrite Forall_singleton.
  - cbn [scan_rest] in Hrun.
    destruct (ash0_at (b :: rest) 0) as [[|]|h] eqn:E; cbn in Hrun; [| |done].
    + apply ash0_at_true in E.
      apply IH in Hrun as (c' & -> & HF & Hcat); [|done|done|].
      * exists c'. split_and!; [done..|].
        rewrite Hcat, concat_app. cbn. by rewrite app_nil_r, <- !app_assoc.
      * apply Forall_app. rewrite Forall_singleton.
        eauto using ASH0_no_overlap.
    + apply IH in Hrun as (c' & -> & HF & Hcat); [| |by rewrite <- app_assoc|done].
      * exists c'. split_and!; [done..|]. by rewrite Hcat, <- !app_assoc.
      * by destruct c.
Qed.

(** Before the first marker nothing is kept. *)
Lemma scan_rest_none rest acc' cur' :
  scan_rest rest [] None = Ret (acc', cur') →
  match strings_Index rest ASH0 with
  | None => acc' = [] ∧ cur' = None
  | Some k =>
      ∃ c', cur' = Some c' ∧ Forall (λ s, ASH0 `prefix_of` s) (acc' ++ [c'])
            ∧ concat acc' ++ c' = drop k rest
  end.
Proof.
  induction rest as [|b rest IH]; intros Hrun.
  - cbn in Hrun. simplify_eq. cbn. by rewrite bool_decide_eq_false_2 by
      (intros [k Hk]; discriminate).
  - cbn [scan_rest] in Hrun. cbn [strings_Index].
    destruct (ash0_at (b :: rest) 0) as [[|]|h] eqn:E; cbn in Hrun; [| |done].
    + pose proof E as Hp. apply ash0_at_true in Hp.
      rewrite bool_decide_eq_true_2 by done.
      apply scan_rest_some in Hrun as (c' & -> & HF & Hcat); [|done|done|done].
      exists c'. by split_and!.
    + apply ash0_at_false in E. rewrite bool_decide_eq_false_2 by done.
      specialize (IH Hrun). destruct (strings_Index rest ASH0); cbn; done.
Qed.

(** ** Scanning over a marker and over marker-free bytes *)

Lemma scan_rest_marker T acc cur :
  scan_rest (ASH0 ++ T) acc cur = scan_rest T (acc ++ option_list cur) (Some ASH0).
Proof. reflexivity. Qed.

Lemma strings_Contains_cons b s sub :
  strings_Contains (b :: s) sub = false →
  ¬ sub `prefix_of` b :: s ∧ strings_Contains s sub = false.
Proof.
  cbn. rewrite orb_false_iff, bool_decide_eq_false. tauto.
Qed.

Lemma cut_marker_tail_tl b l :
  cut_marker_tail (b :: l) = false → cut_marker_tail l = false.
Proof.
  intros H. apply not_true_iff_false. intros Hc.
  apply not_true_iff_false in H. apply H, cut_marker_tail_cons. by right.
Qed.

(** A window that starts in marker-free bytes and reaches into what follows
    (a marker, or the end of the buffer) does not match. *)
Lemma ASH0_no_straddle (X R : list byte) :
  X ≠ [] → ¬ ASH0 `prefix_of` X → ASH0 `prefix_of` R ∨ R = [] →
  ¬ ASH0 `prefix_of` X ++ R.
Proof.
  intros HX Hn HR [k Hk].
  destruct X as [|x0 [|x1 [|x2 [|x3 X]]]]; [done|..];
    try (destruct HR as [[k' ->]| ->]; simplify_eq/=; fail).
  apply Hn. simplify_eq/=. by exists X.
Qed.

Lemma scan_rest_body X R acc c :
  strings_Contains X ASH0 = false →
  ASH0 `prefix_of` R ∨ (R = [] ∧ cut_marker_tail X = false) →
  scan_rest (X ++ R) acc (Some c) = scan_rest R acc (Some (c ++ X)).
Proof.
  revert c. induction X as [|b X IH]; intros c HX HR.
  - cbn. by rewrite app_nil_r.
  - apply strings_Contains_cons in HX as [Hp HX].
    change ((b :: X) ++ R) with (b :: (X ++ R)). cbn [scan_rest].
    destruct (ash0_at (b :: X ++ R) 0) as [[|]|h] eqn:E; cbn.
    + apply ash0_at_true in E. exfalso.
      apply (ASH0_no_straddle (b :: X) R); [done|done| |done]. naive_solver.
    + rewrite IH; [by rewrite <- app_assoc|done|].
      destruct HR as [?|[-> ?]]; eauto using cut_marker_tail_tl.
    + exfalso. apply ash0_at_halt in E as [_ E].
      destruct HR as [[k ->]|[-> Hc]].
      * destruct E as [E|[E|[E|E]]]; apply (f_equal length) in E;
          cbn in E; rewrite length_app in E; cbn in E; lia.
      * rewrite app_nil_r in E.
        assert (cut_marker_tail (b :: X) = true); [|congruence].
        apply cut_marker_tail_cons. left. naive_solver.
Qed.

(** ** The splitter *)

(** C2 (as amended).  On a buffer ASH0 X ASH0 Y ASH0 Z ASH0 W, where X, Y, Z
    and W hold no marker and W does not stop in the middle of one,
    [splitAsh0Bundle] returns exactly four segments, and each of them keeps
    its marker: ASH0 X, ASH0 Y, ASH0 Z, ASH0 W. *)
Theorem splitAsh0Bundle_four_bundles (X Y Z W : list byte) :
  strings_Contains X ASH0 = false → strings_Contains Y ASH0 = false →
  strings_Contains Z ASH0 = false → strings_Contains W ASH0 = false →
  cut_marker_tail W = false →
  splitAsh0Bundle (ASH0 ++ X ++ ASH0 ++ Y ++ ASH0 ++ Z ++ ASH0 ++ W)
  = Ret [ASH0 ++ X; ASH0 ++ Y; ASH0 ++ Z; ASH0 ++ W].
Proof.
  intros HX HY HZ HW Hcut. rewrite splitAsh0Bundle_scan_rest.
  assert (∀ T, ASH0 `prefix_of` ASH0 ++ T) as Hpre by (intros T; by exists T).
  rewrite scan_rest_marker, scan_rest_body by eauto.
  rewrite scan_rest_marker, scan_rest_body by eauto.
  rewrite scan_rest_marker, scan_rest_body by eauto.
  rewrite scan_rest_marker.
  rewrite <- (app_nil_r W) at 1. rewrite scan_rest_body by eauto.
  reflexivity.
Qed.

Lemma splitAsh0Bundle_four_bundles_witness :
  strings_Contains ["a"]%byte ASH0 = false
  ∧ strings_Contains ["b"; "A"]%byte ASH0 = false
  ∧ strings_Contains ["c"]%byte ASH0 = false
  ∧ strings_Contains ["d"]%byte ASH0 = false
  ∧ cut_marker_tail ["d"]%byte = false
  ∧ splitAsh0Bundle
      (ASH0 ++ ["a"] ++ ASH0 ++ ["b"; "A"] ++ ASH0 ++ ["c"] ++ ASH0 ++ ["d"])%byte
    = Ret [ASH0 ++ ["a"]; ASH0 ++ ["b"; "A"]; ASH0 ++ ["c"]; ASH0 ++ ["d"]]%byte.
Proof.
  split_and!; [reflexivity..|].
  apply (splitAsh0Bundle_four_bundles ["a"] ["b"; "A"] ["c"] ["d"])%byte;
    reflexivity.
Defined.

(** C2, as stated, fails: the segments returned are not X, Y, Z, W, the
    marker bytes are part of each of them. *)
Lemma splitAsh0Bundle_keeps_markers :
  let X := ["x"]%byte in let Y := ["y"]%byte in
  let Z := ["z"]%byte in let W := ["w"]%byte in
  strings_Contains X ASH0 = false ∧ strings_Contains Y ASH0 = false ∧
  strings_Contains Z ASH0 = false ∧ strings_Contains W ASH0 = false ∧
  splitAsh0Bundle (ASH0 ++ X ++ ASH0 ++ Y ++ ASH0 ++ Z ++ ASH0 ++ W)
  ≠ Ret [X; Y; Z; W].
Proof. cbv zeta. split_and!; [reflexivity..|discriminate]. Qed.

(** C3 (the code fails it).  The scan reads past the end of the buffer, and
    the process panics, exactly when the buffer stops in the middle of a
    marker: when its last bytes are "A", "AS" or "ASH". *)
Theorem splitAsh0Bundle_reads_past_end (data : list byte) :
  splitAsh0Bundle data = Halt (runtime_panic index_out_of_range)
  ↔ cut_marker_tail data = true.
Proof.
  rewrite splitAsh0Bundle_scan_rest. split.
  - destruct (scan_rest data [] None) as [[acc [c|]]|h] eqn:E; cbn; try done.
    intros _. by apply scan_rest_halt in E as [_ E].
  - intros Hc.
    assert (scan_rest data [] None = Halt (runtime_panic index_out_of_range))
      as -> by by apply scan_rest_halt.
    done.
Qed.

Lemma splitAsh0Bundle_reads_past_end_witness :
  cut_marker_tail (payload_ok ++ ["A"; "S"]%byte) = true
  ∧ splitAsh0Bundle (payload_ok ++ ["A"; "S"]%byte)
    = Halt (runtime_panic index_out_of_range).
Proof.
  split; [by vm_compute|].
  apply (splitAsh0Bundle_reads_past_end (payload_ok ++ ["A"; "S"]%byte)).
  by vm_compute.
Defined.

Lemma Legacy_splitAsh0Bundle_reads_past_end (data : list byte) :
  cut_marker_tail data = true →
  Legacy.splitAsh0Bundle data = Halt (runtime_panic index_out_of_range).
Proof.
  intros Hc. rewrite Legacy_splitAsh0Bundle_scan_rest.
  assert (scan_rest data [] None = Halt (runtime_panic index_out_of_range))
    as -> by by apply scan_rest_halt.
  done.
Qed.

Example splitAsh0Bundle_reads_past_end_A :
  splitAsh0Bundle (ASH0 ++ ["x"; "A"])%byte = Halt (runtime_panic index_out_of_range)
  ∧ Legacy.splitAsh0Bundle (ASH0 ++ ["x"; "A"])%byte
    = Halt (runtime_panic index_out_of_range).
Proof. split; reflexivity. Qed.

(** C4 (as amended).  On a buffer without any marker [splitAsh0Bundle] never
    returns, so no segment list is produced, in particular not one segment
    that covers the buffer; when the scan stays within the buffer, the call
    ends the whole process with exit status 1. *)
Theorem splitAsh0Bundle_no_marker (data : list byte) :
  strings_Contains data ASH0 = false →
  (∀ segs, splitAsh0Bundle data ≠ Ret segs)
  ∧ (cut_marker_tail data = false → splitAsh0Bundle data = Halt (os_Exit 1)).
Proof.
  intros Hn. apply strings_Contains_false_Index in Hn.
  rewrite splitAsh0Bundle_scan_rest.
  destruct (scan_rest data [] None) as [[acc cur]|h] eqn:E; cbn.
  - apply scan_rest_none in E. rewrite Hn in E. destruct E as [-> ->].
    by split.
  - apply scan_rest_halt in E as [-> E]. split; [done|congruence].
Qed.

Lemma splitAsh0Bundle_no_marker_witness :
  strings_Contains payload_no_marker ASH0 = false
  ∧ cut_marker_tail payload_no_marker = false
  ∧ (∀ segs, splitAsh0Bundle payload_no_marker ≠ Ret segs)
  ∧ splitAsh0Bundle payload_no_marker = Halt (os_Exit 1).
Proof.
  destruct (splitAsh0Bundle_no_marker payload_no_marker ltac:(by vm_compute))
    as [Hnever Hexit].
  split_and!; [by vm_compute..|done|]. apply Hexit. by vm_compute.
Defined.

(** The variant has no exit: it panics on [data[start:]]. *)
Lemma Legacy_splitAsh0Bundle_no_marker (data : list byte) :
  strings_Contains data ASH0 = false →
  ∃ p, Legacy.splitAsh0Bundle data = Halt (runtime_panic p).
Proof.
  intros Hn. apply strings_Contains_false_Index in Hn.
  rewrite Legacy_splitAsh0Bundle_scan_rest.
  destruct (scan_rest data [] None) as [[acc cur]|h] eqn:E; cbn.
  - apply scan_rest_none in E. rewrite Hn in E. destruct E as [-> ->].
    by eexists.
  - apply scan_rest_halt in E as [-> E]. by eexists.
Qed.

(** C10.  On a buffer that holds a marker, the segments [splitAsh0Bundle]
    returns all begin with the marker, and put end to end they are the
    buffer from its first marker on; the call does return whenever the
    buffer does not stop in the middle of a marker. *)
Theorem splitAsh0Bundle_segments (data : list byte) :
  strings_Contains data ASH0 = true →
  (∀ segs, splitAsh0Bundle data = Ret segs →
     Forall (λ s, ASH0 `prefix_of` s) segs
     ∧ ∃ k, strings_Index data ASH0 = Some k ∧ concat segs = drop k data)
  ∧ (cut_marker_tail data = false → ∃ segs, splitAsh0Bundle data = Ret segs).
Proof.
  intros Hc. apply strings_Contains_Index in Hc as [k Hk].
  rewrite splitAsh0Bundle_scan_rest. split.
  - intros segs Hrun.
    destruct (scan_rest data [] None) as [[acc cur]|h] eqn:E; [|done].
    apply scan_rest_none in E. rewrite Hk in E.
    destruct E as (c & -> & HF & Hcat). cbn in Hrun. simplify_eq.
    split; [done|]. exists k. split; [done|].
    by rewrite concat_app, <- Hcat; cbn; rewrite app_nil_r.
  - intros Hcut.
    destruct (scan_rest_total data [] None Hcut) as [[acc cur] E].
    rewrite E. apply scan_rest_none in E. rewrite Hk in E.
    destruct E as (c & -> & _). by eexists.
Qed.

Lemma splitAsh0Bundle_segments_witness :
  let segs := [ASH0 ++ bytes "aa"; ASH0 ++ bytes "b"; ASH0 ++ bytes "ccc";
               ASH0 ++ bytes "d"] in
  strings_Contains payload_ok ASH0 = true
  ∧ cut_marker_tail payload_ok = false
  ∧ splitAsh0Bundle payload_ok = Ret segs
  ∧ Forall (λ s, ASH0 `prefix_of` s) segs
  ∧ (∃ k, strings_Index payload_ok ASH0 = Some k ∧ concat segs = drop k payload_ok)
  ∧ (∃ segs', splitAsh0Bundle payload_ok = Ret segs').
Proof.
  cbv zeta.
  destruct (splitAsh0Bundle_segments payload_ok ltac:(by vm_compute))
    as [Hsegs Hret].
  destruct (Hsegs _ ltac:(by vm_compute)) as [Hpre Hcat].
  split_and!; [by vm_compute..|done|done|]. apply Hret. by vm_compute.
Defined.

Lemma Legacy_splitAsh0Bundle_segments (data : list byte) :
  strings_Contains data ASH0 = true →
  Legacy.splitAsh0Bundle data = splitAsh0Bundle data.
Proof.
  intros Hc. apply strings_Contains_Index in Hc as [k Hk].
  rewrite splitAsh0Bundle_scan_rest, Legacy_splitAsh0Bundle_scan_rest.
  destruct (scan_rest data [] None) as [[acc cur]|h] eqn:E; [|done].
  apply scan_rest_none in E. rewrite Hk in E.
  by destruct E as (c & -> & _).
Qed.

(** ** The tar writer *)

Lemma write_last_snoc es e b :
  write_last (es ++ [e]) b = es ++ [{| Header := Header e; Body := b |}].
Proof.
  induction es as [|e' es IH]; [done|]. cbn [app write_last].
  rewrite IH. by destruct es.
Qed.

Lemma last_Size_snoc es e : last_Size (es ++ [e]) = Size (Header e).
Proof. unfold last_Size. by rewrite last_snoc. Qed.

Lemma io_ok_S n w :
  io_ok (S n) w → io w (calls w) = None ∧ io_ok n (set_calls (S (calls w)) w).
Proof.
  intros H. split.
  - specialize (H 0). rewrite Nat.add_0_r in H. apply H. lia.
  - intros k Hk. cbn. specialize (H (S k)).
    rewrite <- Nat.add_succ_comm in H. apply H. lia.
Qed.

Lemma io_ok_0 n w : io_ok (S n) w → io w (calls w) = None.
Proof. intros H. rewrite <- (Nat.add_0_r (calls w)). apply H. lia. Qed.
Lemma io_ok_1 n w : io_ok (S (S n)) w → io w (S (calls w)) = None.
Proof. intros H. replace (S (calls w)) with (calls w + 1) by lia. apply H. lia. Qed.
Lemma io_ok_2 n w : io_ok (S (S (S n))) w → io w (S (S (calls w))) = None.
Proof. intros H. replace (S (S (calls w))) with (calls w + 2) by lia. apply H. lia. Qed.

(** ** Worlds and the calls that change them *)

Lemma set_fs_set_fs f g w : set_fs f (set_fs g w) = set_fs f w.
Proof. reflexivity. Qed.
Lemma set_calls_set_calls n m w : set_calls n (set_calls m w) = set_calls n w.
Proof. reflexivity. Qed.
Lemma set_calls_set_fs n f w : set_calls n (set_fs f w) = set_fs f (set_calls n w).
Proof. reflexivity. Qed.
Lemma set_bar_set_fs n f w : set_bar n (set_fs f w) = set_fs f (set_bar n w).
Proof. reflexivity. Qed.
Lemma set_bar_set_calls n m w : set_bar n (set_calls m w) = set_calls m (set_bar n w).
Proof. reflexivity. Qed.
Lemma set_stage_set_stage s t w : set_stage s (set_stage t w) = set_stage s w.
Proof. reflexivity. Qed.
Lemma set_fs_set_stage f s w : set_fs f (set_stage s w) = set_stage s (set_fs f w).
Proof. reflexivity. Qed.
Lemma set_calls_set_stage n s w : set_calls n (set_stage s w) = set_stage s (set_calls n w).
Proof. reflexivity. Qed.
Lemma set_bar_set_stage n s w : set_bar n (set_stage s w) = set_stage s (set_bar n w).
Proof. reflexivity. Qed.

Create Rewrite HintDb world.
#[local] Hint Rewrite set_fs_set_fs set_calls_set_calls set_calls_set_fs
  set_bar_set_fs set_bar_set_calls set_stage_set_stage set_fs_set_stage
  set_calls_set_stage set_bar_set_stage : world.

Lemma bindM_unfold {A B} (m : M A) (k : A → M B) w :
  bindM m k w =
  match m w with
  | (Ret a, w') => k a w'
  | (Halt h, w') => (Halt h, w')
  end.
Proof. reflexivity. Qed.

Lemma os_Create_spec path w :
  os_Create path w =
  match io w (calls w) with
  | Some e => (Ret (Some e), set_calls (S (calls w)) w)
  | None =>
      (Ret None,
       set_stage (<[path := writing]> (stage w))
         (set_fs (<[path := []]> (fs w)) (set_calls (S (calls w)) w)))
  end.
Proof. unfold os_Create, bindM, pop_io. by destruct (io w (calls w)). Qed.

Lemma tar_WriteHeader_spec path hdr es w :
  fs w !! path = Some es →
  tar_WriteHeader path hdr w =
  match io w (calls w) with
  | Some e =>
      (Ret (Some e),
       set_stage (<[path := broken]> (stage w)) (set_calls (S (calls w)) w))
  | None =>
      (Ret None,
       set_fs (<[path := es ++ [{| Header := hdr; Body := [] |}]]> (fs w))
              (set_calls (S (calls w)) w))
  end.
Proof.
  intros Hes. unfold tar_WriteHeader, bindM, pop_io.
  destruct (io w (calls w)); [done|]. cbn. by rewrite Hes.
Qed.

Lemma tar_Write_spec path b es e w :
  fs w !! path = Some (es ++ [e]) → (Z.of_nat (length b) ≤ Size (Header e))%Z →
  tar_Write path b w =
  match io w (calls w) with
  | Some e' =>
      (Ret (Some e'),
       set_stage (<[path := broken]> (stage w)) (set_calls (S (calls w)) w))
  | None =>
      (Ret None,
       set_fs (<[path := es ++ [{| Header := Header e; Body := b |}]]> (fs w))
              (set_calls (S (calls w)) w))
  end.
Proof.
  intros Hes Hlen. unfold tar_Write, bindM, pop_io.
  destruct (io w (calls w)); [done|]. cbn. rewrite Hes. cbn.
  rewrite last_Size_snoc, write_last_snoc. by rewrite decide_True.
Qed.

Lemma close_step_spec path from to w :
  close_step path from to w =
  match io w (calls w) with
  | Some e => (Ret (Some e), set_calls (S (calls w)) w)
  | None =>
      (Ret None,
       if decide (stage w !! path = Some from)
       then set_stage (<[path := to]> (stage w)) (set_calls (S (calls w)) w)
       else set_calls (S (calls w)) w)
  end.
Proof.
  unfold close_step, bindM, pop_io. destruct (io w (calls w)); [done|].
  simpl. by case_decide.
Qed.

(** A [Close] call changes the stage of its archive and counts as one call,
    nothing else. *)
Lemma close_step_world path from to w :
  ∃ s, (close_step path from to w).2 = set_stage s (set_calls (S (calls w)) w)
       ∧ ∀ p, p ≠ path → s !! p = stage w !! p.
Proof.
  rewrite close_step_spec. destruct (io w (calls w)).
  - exists (stage w). split; [by destruct w|done].
  - simpl. case_decide.
    + eexists. split; [done|]. intros p Hp. by rewrite lookup_insert_ne.
    + exists (stage w). split; [by destruct w|done].
Qed.

Lemma deferred_Closes_world path w :
  ∃ s, deferred_Closes path w = set_stage s (set_calls (calls w + 3) w)
       ∧ ∀ p, p ≠ path → s !! p = stage w !! p.
Proof.
  unfold deferred_Closes, tarWriter_Close, zstWriter_Close, file_Close.
  destruct (close_step_world path writing tar_closed w) as (s1 & -> & H1).
  destruct (close_step_world path tar_closed zstd_closed
              (set_stage s1 (set_calls (S (calls w)) w))) as (s2 & -> & H2).
  destruct (close_step_world path zstd_closed complete
              (set_stage s2 (set_calls (S (calls (set_stage s1 (set_calls (S (calls w)) w))))
                                       (set_stage s1 (set_calls (S (calls w)) w)))))
    as (s3 & -> & H3).
  exists s3. simpl in *. autorewrite with world. split.
  - do 2 f_equal. lia.
  - intros p Hp. by rewrite H3, H2, H1.
Qed.

Lemma fs_deferred_Closes path w : fs (deferred_Closes path w) = fs w.
Proof. by destruct (deferred_Closes_world path w) as (s & -> & _). Qed.
Lemma bar_deferred_Closes path w : bar (deferred_Closes path w) = bar w.
Proof. by destruct (deferred_Closes_world path w) as (s & -> & _). Qed.
Lemma clock_deferred_Closes path w : clock (deferred_Closes path w) = clock w.
Proof. by destruct (deferred_Closes_world path w) as (s & -> & _). Qed.
Lemma io_deferred_Closes path w : io (deferred_Closes path w) = io w.
Proof. by destruct (deferred_Closes_world path w) as (s & -> & _). Qed.
Lemma calls_deferred_Closes path w :
  calls (deferred_Closes path w) = calls w + 3.
Proof. by destruct (deferred_Closes_world path w) as (s & -> & _). Qed.

(** When the three [Close] calls succeed on an archive that is being
    written, the archive is complete. *)
Lemma deferred_Closes_complete path w :
  stage w !! path = Some writing → io_ok 3 w →
  stage (deferred_Closes path w) !! path = Some complete.
Proof.
  intros Hs Hio. unfold deferred_Closes, tarWriter_Close, zstWriter_Close, file_Close.
  rewrite (close_step_spec path writing), (io_ok_0 _ _ Hio).
  rewrite decide_True by done. simpl.
  rewrite (close_step_spec path tar_closed). simpl. rewrite (io_ok_1 _ _ Hio).
  rewrite decide_True by apply lookup_insert_eq. simpl.
  rewrite (close_step_spec path zstd_closed). simpl. rewrite (io_ok_2 _ _ Hio).
  rewrite decide_True by apply lookup_insert_eq. simpl.
  apply lookup_insert_eq.
Qed.

(** The code from [os.Create] to the last [defer], around any body. *)
Lemma create_defer_unfold path (body : M (option error)) w :
  (check os_Create path;
   defer (file_Close path) (
   check zstd_NewWriter;
   defer (zstWriter_Close path) (defer (tarWriter_Close path) body))) w =
  match io w (calls w) with
  | Some e => (Ret (Some e), set_calls (S (calls w)) w)
  | None =>
      let w2 := set_stage (<[path := writing]> (stage w))
                  (set_fs (<[path := []]> (fs w)) (set_calls (S (S (calls w))) w)) in
      match io w (S (calls w)) with
      | Some e => (Ret (Some e), (file_Close path w2).2)
      | None => closing path (body w2)
      end
  end.
Proof.
  rewrite bindM_unfold, os_Create_spec.
  destruct (io w (calls w)); [done|].
  unfold defer at 1. rewrite bindM_unfold. unfold zstd_NewWriter, pop_io. simpl.
  autorewrite with world.
  destruct (io w (S (calls w))); [done|].
  unfold defer, closing, deferred_Closes.
  destruct (body _) as [[a|[p|c|e]] w']; done.
Qed.

Lemma closing_Ret {A} path (a : A) w :
  closing path (Ret a, w) = (Ret a, deferred_Closes path w).
Proof. reflexivity. Qed.

Lemma closing_Ret_inv {A} path (r : outcome A * World) a w' :
  closing path r = (Ret a, w') →
  ∃ w'', r = (Ret a, w'') ∧ w' = deferred_Closes path w''.
Proof.
  destruct r as [[a'|[p|c|e]] w'']; unfold closing; simpl; intros [= <- <-] || intros [=].
  by exists w''.
Qed.

Lemma closing_Halt_inv {A} path (r : outcome A * World) h w' :
  closing path r = (Halt h, w') →
  ∃ w'', r = (Halt h, w'')
    ∧ w' = if runs_deferred (@Halt A h) then deferred_Closes path w'' else w''.
Proof.
  destruct r as [[a'|[p|c|e]] w'']; unfold closing; simpl;
    intros [= <- <-] || intros [=]; by exists w''.
Qed.

Section PipelineFacts.

Context (Decompress : list byte → option (list byte)).
Context (url_Parse : string → URL + error).

(** One turn of the loop over [fileNames], for a segment that decodes. *)
Lemma write_entries_step path sd i name names seg d es w :
  sd !! i = Some seg → Decompress seg = Some d → fs w !! path = Some es →
  write_entries Decompress path sd i (name :: names) w =
  match io w (calls w) with
  | Some e =>
      (Ret (Some e),
       set_stage (<[path := broken]> (stage w)) (set_calls (S (calls w)) w))
  | None =>
      match io w (S (calls w)) with
      | Some e =>
          (Ret (Some e),
           set_stage (<[path := broken]> (stage w))
             (set_fs (<[path := es ++ [{| Header := Header (entry_of (clock w) name d);
                                          Body := [] |}]]>
                        (fs w))
                     (set_calls (S (S (calls w))) w)))
      | None =>
          write_entries Decompress path sd (S i) names
            (set_fs (<[path := es ++ [entry_of (clock w) name d]]> (fs w))
                    (set_calls (S (S (calls w))) w))
      end
  end.
Proof.
  intros Hseg Hd Hes. cbn [write_entries].
  rewrite bindM_unfold. unfold lift at 1, index at 1. rewrite Hseg, Hd.
  rewrite bindM_unfold. unfold time_Now at 1.
  rewrite bindM_unfold, (tar_WriteHeader_spec _ _ es) by done.
  destruct (io w (calls w)) eqn:E1; [done|].
  rewrite bindM_unfold.
  erewrite tar_Write_spec; [|apply lookup_insert_eq|cbn; lia].
  simpl. autorewrite with world. simpl. rewrite insert_insert_eq.
  by destruct (io w (S (calls w))).
Qed.

Lemma write_entries_nil_decode path sd i name names seg w :
  sd !! i = Some seg → Decompress seg = None →
  write_entries Decompress path sd i (name :: names) w
  = (Ret (Some (errors_New "failed to decompress")), w).
Proof.
  intros Hseg Hd. cbn [write_entries].
  rewrite bindM_unfold. unfold lift at 1, index at 1. by rewrite Hseg, Hd.
Qed.

Lemma world_eta w : set_fs (fs w) (set_calls (calls w) w) = w.
Proof. by destruct w. Qed.

(** While the segments decode and the writes succeed, the loop appends one
    entry per name. *)
Lemma write_entries_prefix path sd names1 names2 :
  ∀ i ds es w,
  Forall2 (λ seg d, Decompress seg = Some d)
          (take (length names1) (drop i sd)) ds →
  length ds = length names1 →
  io_ok (2 * length names1) w → fs w !! path = Some es →
  write_entries Decompress path sd i (names1 ++ names2) w
  = write_entries Decompress path sd (i + length names1) names2
      (set_fs (<[path := es ++ zip_with (entry_of (clock w)) names1 ds]> (fs w))
              (set_calls (calls w + 2 * length names1) w)).
Proof.
  induction names1 as [|name names1 IH]; intros i ds es w HF Hlen Hio Hes.
  - cbn. rewrite app_nil_r, !Nat.add_0_r, insert_id by done.
    by rewrite world_eta.
  - destruct ds as [|d ds]; [done|]. cbn in Hlen.
    destruct (sd !! i) as [seg|] eqn:Hseg.
    2: { apply lookup_ge_None in Hseg. rewrite drop_ge in HF by done.
         by apply Forall2_length in HF. }
    rewrite (drop_S _ _ _ Hseg) in HF. cbn in HF.
    apply Forall2_cons in HF as [Hd HF].
    change ((name :: names1) ++ names2) with (name :: (names1 ++ names2)).
    rewrite (write_entries_step _ _ _ _ _ _ _ _ _ Hseg Hd Hes).
    replace (2 * length (name :: names1)) with (S (S (2 * length names1))) in *
      by (cbn; lia).
    apply io_ok_S in Hio as [-> Hio]. apply io_ok_S in Hio as [Hio2 Hio].
    simpl in Hio2. rewrite Hio2.
    rewrite (IH (S i) ds (es ++ [entry_of (clock w) name d])); [|done|lia| |].
    + simpl. autorewrite with world. rewrite insert_insert_eq, <- app_assoc.
      cbn [length]. do 2 f_equal; [lia|]. f_equal. lia.
    + by autorewrite with world in Hio.
    + apply lookup_insert_eq.
Qed.

(** A loop that ends without an error decoded every segment and wrote its
    entry. *)
Lemma write_entries_nil_inv path sd names :
  ∀ i es w w',
  fs w !! path = Some es →
  write_entries Decompress path sd i names w = (Ret None, w') →
  ∃ ds,
    Forall2 (λ seg d, Decompress seg = Some d)
            (take (length names) (drop i sd)) ds
    ∧ length ds = length names
    ∧ w' = set_fs (<[path := es ++ zip_with (entry_of (clock w)) names ds]> (fs w))
                  (set_calls (calls w + 2 * length names) w).
Proof.
  induction names as [|name names IH]; intros i es w w' Hes Hrun.
  - cbn in Hrun. unfold retM in Hrun. simplify_eq. exists [].
    split_and!; [by rewrite take_0|done|].
    cbn. by rewrite app_nil_r, !Nat.add_0_r, insert_id, world_eta.
  - destruct (sd !! i) as [seg|] eqn:Hseg.
    2: { cbn [write_entries] in Hrun. rewrite bindM_unfold in Hrun.
         unfold lift, index in Hrun. by rewrite Hseg in Hrun. }
    destruct (Decompress seg) as [d|] eqn:Hd.
    2: { by rewrite (write_entries_nil_decode _ _ _ _ _ _ _ Hseg Hd) in Hrun. }
    rewrite (write_entries_step _ _ _ _ _ _ _ _ _ Hseg Hd Hes) in Hrun.
    destruct (io w (calls w)); [done|].
    destruct (io w (S (calls w))); [done|].
    apply IH with (es := es ++ [entry_of (clock w) name d]) in Hrun
      as (ds & HF & Hlen & ->); [|apply lookup_insert_eq].
    exists (d :: ds). split_and!.
    + rewrite (drop_S _ _ _ Hseg). cbn. by constructor.
    + cbn. by rewrite Hlen.
    + simpl. autorewrite with world. rewrite insert_insert_eq, <- app_assoc.
      cbn [length]. do 2 f_equal. lia.
Qed.

(** ** convertLevelData *)

Lemma convertLevelData_no_200 id data status isPrefix w :
  ReadLine data = (status, isPrefix, None) →
  strings_Contains status ["2"; "0"; "0"]%byte = false →
  convertLevelData Decompress id data w = (Ret None, w).
Proof. intros HR Hc. unfold convertLevelData. by rewrite HR, Hc. Qed.

Lemma convertLevelData_200 id data status isPrefix w :
  ReadLine data = (status, isPrefix, None) →
  strings_Contains status ["2"; "0"; "0"]%byte = true →
  convertLevelData Decompress id data w =
  match io w (calls w) with
  | Some e => (Ret (Some e), set_calls (S (calls w)) w)
  | None =>
      let w2 := set_stage (<[output_path id := writing]> (stage w))
                  (set_fs (<[output_path id := []]> (fs w))
                          (set_calls (S (S (calls w))) w)) in
      match io w (S (calls w)) with
      | Some e => (Ret (Some e), (file_Close (output_path id) w2).2)
      | None =>
          closing (output_path id)
            match splitAsh0Bundle data with
            | Halt h => (Halt h, w2)
            | Ret splitData =>
                if decide (length splitData ≠ length fileNames)
                then (Ret (Some (errors_New "failed to split data")), w2)
                else write_entries Decompress (output_path id) splitData 0 fileNames w2
            end
      end
  end.
Proof.
  intros HR Hc. unfold convertLevelData. rewrite HR, Hc. cbn [negb].
  rewrite create_defer_unfold.
  destruct (io w (calls w)); [done|]. cbv zeta.
  destruct (io w (S (calls w))); [done|]. f_equal.
  rewrite bindM_unfold. unfold lift at 1.
  destruct (splitAsh0Bundle data) as [splitData|h]; [|done].
  by case_decide.
Qed.

(** ** extract_file *)

Lemma strings_Split_last s sep : is_Some (last (strings_Split s sep)).
Proof.
  induction s as [|c s [x IH]]; [by eexists|]. cbn. case_decide.
  - rewrite last_cons, IH. by eexists.
  - destruct (strings_Split s sep) as [|p ps]; [done|].
    rewrite last_cons. rewrite last_cons in IH. destruct (last ps); by eexists.
Qed.

Lemma index_last_baseName path :
  index (strings_Split path "/") (length (strings_Split path "/") - 1)
  = Ret (baseName path).
Proof.
  unfold index, baseName. destruct (strings_Split_last path "/") as [x Hx].
  rewrite Hx. rewrite last_lookup in Hx.
  replace (length (strings_Split path "/") - 1)
    with (pred (length (strings_Split path "/"))) by lia.
  by rewrite Hx.
Qed.

(** One turn of the record loop on a response record whose URI parses. *)
Lemma extract_file_response record records link w :
  WARC_Type record = "response" →
  url_Parse (WARC_Target_URI record) = inl link →
  extract_file Decompress url_Parse (record :: records) w =
  match io w (calls w) with
  | Some e => (Halt (log_Fatal e), set_calls (S (calls w)) w)
  | None =>
      match convertLevelData Decompress (baseName (Path link)) (Content record)
              (set_calls (S (calls w)) w) with
      | (Ret (Some e), w') => (Halt (log_Fatal e), w')
      | (Ret None, w') =>
          extract_file Decompress url_Parse records (set_bar (bar w' + 1) w')
      | (Halt h, w') => (Halt h, w')
      end
  end.
Proof.
  intros Ht Hu. cbn [extract_file]. rewrite decide_False by (by rewrite Ht; intros []).
  rewrite Hu. rewrite bindM_unfold. unfold lift at 1.
  rewrite index_last_baseName.
  rewrite bindM_unfold. unfold io_ReadAll. rewrite bindM_unfold.
  unfold pop_io. destruct (io w (calls w)); [done|]. unfold retM at 1.
  rewrite bindM_unfold.
  destruct (convertLevelData _ _ _ _) as [[[e|]|h] w']; try done.
Qed.

(** ** The pipeline *)

(** C1 (as amended).  When the first line of the payload contains "200",
    [convertLevelData] returns nil and the three deferred [Close] calls (the
    eleventh to thirteenth input/output calls, whose errors the code drops)
    succeed, the output archive of the record is complete and holds exactly
    four entries, named after [fileNames] in that order, and the entry at
    each position has the size and the bytes of the decoded segment at that
    position. *)
Theorem convertLevelData_archive id data status isPrefix w w' :
  ReadLine data = (status, isPrefix, None) →
  strings_Contains status ["2"; "0"; "0"]%byte = true →
  convertLevelData Decompress id data w = (Ret None, w') →
  (∀ k, 10 ≤ k < 13 → io w (calls w + k) = None) →
  ∃ segs ds es,
    splitAsh0Bundle data = Ret segs
    ∧ Forall2 (λ seg d, Decompress seg = Some d) segs ds
    ∧ stage w' !! output_path id = Some complete
    ∧ fs w' !! output_path id = Some es
    ∧ map (λ e, Name (Header e)) es = fileNames
    ∧ Forall2 (λ e d, Size (Header e) = Z.of_nat (length d) ∧ Body e = d) es ds.
Proof.
  intros HR Hc Hrun Hclose. rewrite (convertLevelData_200 _ _ _ _ _ HR Hc) in Hrun.
  destruct (io w (calls w)); [done|].
  destruct (io w (S (calls w))); [done|]. cbv zeta in Hrun.
  apply closing_Ret_inv in Hrun as (w'' & Hrun & ->).
  destruct (splitAsh0Bundle data) as [segs|h]; [|done].
  case_decide as Hlen; [done|].
  apply write_entries_nil_inv with (es := []) in Hrun
    as (ds & HF & Hds & ->); [|apply lookup_insert_eq].
  rewrite drop_0, <- Hlen, firstn_all in HF.
  exists segs, ds, (zip_with (entry_of (clock w)) fileNames ds).
  split_and!; [done|done| | | |].
  - apply deferred_Closes_complete; [apply lookup_insert_eq|].
    intros k Hk. simpl.
    replace (S (S (calls w + 8 + k))) with (calls w + (10 + k)) by lia.
    apply Hclose. lia.
  - rewrite fs_deferred_Closes. simpl.
    by rewrite insert_insert_eq, lookup_insert_eq.
  - destruct ds as [|d0 [|d1 [|d2 [|d3 [|]]]]]; done.
  - destruct ds as [|d0 [|d1 [|d2 [|d3 [|]]]]]; try done.
    repeat constructor.
Qed.

(** C5 (as amended).  When a response record has a payload whose first line
    contains "200" and which splits into a number of segments other than
    4, [convertLevelData] returns the error "failed to split data" and
    [extract_file] ends the whole run on it with [log.Fatal]: the records
    that follow are not processed.  (Input and output are taken to
    succeed.) *)
Theorem extract_file_halts_on_bad_count record records link status isPrefix segs w :
  WARC_Type record = "response" →
  url_Parse (WARC_Target_URI record) = inl link →
  ReadLine (Content record) = (status, isPrefix, None) →
  strings_Contains status ["2"; "0"; "0"]%byte = true →
  splitAsh0Bundle (Content record) = Ret segs → length segs ≠ 4 →
  io_ok 3 w →
  extract_file Decompress url_Parse (record :: records) w
  = (Halt (log_Fatal (errors_New "failed to split data")),
     deferred_Closes (output_path (baseName (Path link)))
       (set_stage (<[output_path (baseName (Path link)) := writing]> (stage w))
          (set_fs (<[output_path (baseName (Path link)) := []]> (fs w))
                  (set_calls (calls w + 3) w)))).
Proof.
  intros Ht Hu HR Hc Hs Hlen Hio.
  rewrite (extract_file_response _ _ _ _ Ht Hu), (io_ok_0 _ _ Hio).
  rewrite (convertLevelData_200 _ _ _ _ _ HR Hc). simpl.
  rewrite (io_ok_1 _ _ Hio), (io_ok_2 _ _ Hio), Hs, decide_True by done.
  rewrite closing_Ret. autorewrite with world. do 5 f_equal. lia.
Qed.

(** C6 (as amended).  When the first line of the payload contains "200" and
    the payload splits into exactly 3 or exactly 5 segments,
    [convertLevelData] returns the error "failed to split data", not nil;
    the output file has been created and holds no entry.  (The two calls
    that open the file are taken to succeed.) *)
Theorem convertLevelData_rejects_3_or_5 id data status isPrefix segs w :
  ReadLine data = (status, isPrefix, None) →
  strings_Contains status ["2"; "0"; "0"]%byte = true →
  splitAsh0Bundle data = Ret segs → length segs = 3 ∨ length segs = 5 →
  io_ok 2 w →
  convertLevelData Decompress id data w
  = (Ret (Some (errors_New "failed to split data")),
     deferred_Closes (output_path id)
       (set_stage (<[output_path id := writing]> (stage w))
          (set_fs (<[output_path id := []]> (fs w)) (set_calls (calls w + 2) w)))).
Proof.
  intros HR Hc Hs Hlen Hio.
  rewrite (convertLevelData_200 _ _ _ _ _ HR Hc).
  rewrite (io_ok_0 _ _ Hio), (io_ok_1 _ _ Hio). cbv zeta. rewrite Hs.
  rewrite decide_True by (cbn; lia).
  rewrite closing_Ret. do 5 f_equal. lia.
Qed.

(** C7 (as amended).  When [ash0.Decompress] gives the nil slice for the
    segment at position [i], [convertLevelData] returns the error
    "failed to decompress": the entries of the segments before [i] have
    been written, and no entry is written for [i] or after it.  A segment
    that the loop accepts did not decode to nil.  (The first line holds
    "200", the payload splits into 4 segments, and input and output are
    taken to succeed.) *)
Theorem convertLevelData_decompress_nil id data status isPrefix segs w :
  ReadLine data = (status, isPrefix, None) →
  strings_Contains status ["2"; "0"; "0"]%byte = true →
  splitAsh0Bundle data = Ret segs → length segs = 4 →
  (∀ i seg ds,
     segs !! i = Some seg → Decompress seg = None →
     Forall2 (λ s d, Decompress s = Some d) (take i segs) ds →
     io_ok (2 + 2 * i) w →
     convertLevelData Decompress id data w
     = (Ret (Some (errors_New "failed to decompress")),
        deferred_Closes (output_path id)
          (set_stage (<[output_path id := writing]> (stage w))
             (set_fs (<[output_path id
                        := zip_with (entry_of (clock w)) (take i fileNames) ds]> (fs w))
                     (set_calls (calls w + (2 + 2 * i)) w)))))
  ∧ (∀ w', convertLevelData Decompress id data w = (Ret None, w') →
           Forall (λ s, Decompress s ≠ None) segs).
Proof.
  intros HR Hc Hs Hlen. rewrite (convertLevelData_200 _ _ _ _ _ HR Hc). split.
  - intros i seg ds Hseg Hd HF Hio.
    assert (i < 4) as Hi by (apply lookup_lt_Some in Hseg; lia).
    assert (length ds = i) as Hds.
    { apply Forall2_length in HF. rewrite length_take in HF. lia. }
    rewrite (io_ok_0 _ _ Hio), (io_ok_1 _ _ Hio). cbv zeta. rewrite Hs.
    rewrite decide_False by (cbn; lia).
    rewrite <- (take_drop i fileNames) at 1.
    assert (length (take i fileNames) = i) as Hn
      by (rewrite length_take; cbn; lia).
    rewrite (write_entries_prefix _ _ _ _ 0 ds []);
      [|by rewrite Hn|by rewrite Hn| |apply lookup_insert_eq].
    + destruct (drop i fileNames) as [|name names] eqn:Hdrop.
      { apply (f_equal length) in Hdrop. rewrite length_drop in Hdrop.
        cbn in Hdrop. lia. }
      rewrite Hn, Nat.add_0_l.
      rewrite (write_entries_nil_decode _ _ _ _ _ _ _ Hseg Hd).
      rewrite closing_Ret.
      simpl. autorewrite with world. rewrite insert_insert_eq.
      do 5 f_equal. lia.
    + rewrite Hn. intros k Hk. simpl.
      replace (S (S (calls w + k))) with (calls w + (2 + k)) by lia.
      apply Hio. lia.
  - intros w' Hrun.
    destruct (io w (calls w)); [done|].
    destruct (io w (S (calls w))); [done|]. cbv zeta in Hrun.
    apply closing_Ret_inv in Hrun as (w'' & Hrun & _).
    rewrite Hs in Hrun. case_decide; [done|].
    apply write_entries_nil_inv with (es := []) in Hrun
      as (ds & HF & _); [|apply lookup_insert_eq].
    rewrite drop_0 in HF. change (length fileNames) with 4 in HF.
    rewrite <- Hlen, firstn_all in HF.
    clear -HF. induction HF; constructor; [congruence|done].
Qed.

(** C8.  A record whose type is not "response" is skipped: the loop goes on
    with the next record in the same world, so nothing is split, decoded,
    written or reported for it. *)
Theorem extract_file_skips_other_types record records w :
  WARC_Type record ≠ "response" →
  extract_file Decompress url_Parse (record :: records) w
  = extract_file Decompress url_Parse records w.
Proof. intros Ht. cbn [extract_file]. by rewrite decide_True. Qed.

(** C9.  When the first line of the payload does not contain "200",
    [convertLevelData] returns nil and leaves the world as it was: no file
    is created, no input or output call is made, and the payload is
    neither split nor decoded. *)
Theorem convertLevelData_skips_without_200 id data status isPrefix w :
  ReadLine data = (status, isPrefix, None) →
  strings_Contains status ["2"; "0"; "0"]%byte = false →
  convertLevelData Decompress id data w = (Ret None, w).
Proof. apply convertLevelData_no_200. Qed.

End PipelineFacts.

(** ** The pipeline on the sample inputs *)

Lemma convertLevelData_archive_witness :
  let w' := (convertLevelData sample_Decompress "lvl" payload_ok w0).2 in
  ReadLine payload_ok = (status_200, false, None)
  ∧ strings_Contains status_200 ["2"; "0"; "0"]%byte = true
  ∧ convertLevelData sample_Decompress "lvl" payload_ok w0 = (Ret None, w')
  ∧ (∀ k, 10 ≤ k < 13 → io w0 (calls w0 + k) = None)
  ∧ ∃ segs ds es,
      splitAsh0Bundle payload_ok = Ret segs
      ∧ Forall2 (λ seg d, sample_Decompress seg = Some d) segs ds
      ∧ stage w' !! output_path "lvl" = Some complete
      ∧ fs w' !! output_path "lvl" = Some es
      ∧ map (λ e, Name (Header e)) es = fileNames
      ∧ Forall2 (λ e d, Size (Header e) = Z.of_nat (length d) ∧ Body e = d) es ds.
Proof.
  cbv zeta. split_and!; [by vm_compute..|by intros k _|].
  apply (convertLevelData_archive sample_Decompress "lvl" payload_ok
           status_200 false w0); [by vm_compute..|by intros k _].
Defined.

(** C1, as stated, fails: a payload whose first line lacks "200" makes
    [convertLevelData] return nil, and no archive exists for the record.
    Nil is also returned when a deferred [Close] fails after the four
    entries were written: the error is dropped and the archive on disk is
    left incomplete. *)
Lemma convertLevelData_nil_without_archive :
  let run := convertLevelData sample_Decompress "lvl" payload_ok w_close_fail in
  convertLevelData sample_Decompress "lvl" payload_404 w0 = (Ret None, w0)
  ∧ fs w0 !! output_path "lvl" = None
  ∧ run.1 = Ret None
  ∧ stage run.2 !! output_path "lvl" = Some tar_closed.
Proof. cbv zeta. split_and!; by vm_compute. Qed.

(** C4, as stated, fails: the exit in [splitAsh0Bundle] is no error of the
    record, it ends the run, and the record after it is never processed. *)
Lemma splitAsh0Bundle_no_marker_ends_run :
  let run := extract_file sample_Decompress sample_url_Parse
               [response "http://host/a" payload_no_marker;
                response "http://host/b" payload_ok] w0 in
  strings_Contains payload_no_marker ASH0 = false
  ∧ splitAsh0Bundle payload_no_marker = Halt (os_Exit 1)
  ∧ run.1 = Halt (os_Exit 1)
  ∧ fs run.2 !! output_path "b" = None
  ∧ bar run.2 = 0.
Proof. cbv zeta. split_and!; by vm_compute. Qed.

Lemma extract_file_halts_on_bad_count_witness :
  let record := response "http://host/a" payload_three in
  let records := [response "http://host/b" payload_ok] in
  let link := {| Path := "http://host/a" |} in
  let segs := [ASH0 ++ bytes "aa"; ASH0 ++ bytes "b"; ASH0 ++ bytes "ccc"] in
  WARC_Type record = "response"
  ∧ sample_url_Parse (WARC_Target_URI record) = inl link
  ∧ ReadLine (Content record) = (status_200, false, None)
  ∧ strings_Contains status_200 ["2"; "0"; "0"]%byte = true
  ∧ splitAsh0Bundle (Content record) = Ret segs ∧ length segs ≠ 4
  ∧ io_ok 3 w0
  ∧ extract_file sample_Decompress sample_url_Parse (record :: records) w0
    = (Halt (log_Fatal (errors_New "failed to split data")),
       deferred_Closes (output_path (baseName (Path link)))
         (set_stage (<[output_path (baseName (Path link)) := writing]> (stage w0))
            (set_fs (<[output_path (baseName (Path link)) := []]> (fs w0))
                    (set_calls (calls w0 + 3) w0)))).
Proof.
  cbv zeta. split_and!; [by vm_compute..|cbn; lia|by intros k _|].
  apply (extract_file_halts_on_bad_count sample_Decompress sample_url_Parse
           (response "http://host/a" payload_three)
           [response "http://host/b" payload_ok]
           {| Path := "http://host/a" |} status_200 false
           [ASH0 ++ bytes "aa"; ASH0 ++ bytes "b"; ASH0 ++ bytes "ccc"] w0);
    [by vm_compute..|cbn; lia|by intros k _].
Defined.

(** C5, as stated, fails: after a record that splits into 3 segments the run
    does not go on to the next record, it halts; on its own that next record
    is processed. *)
Lemma extract_file_stops_at_bad_count :
  let bad := response "http://host/a" payload_three in
  let good := response "http://host/b" payload_ok in
  let run := extract_file sample_Decompress sample_url_Parse [bad; good] w0 in
  let alone := extract_file sample_Decompress sample_url_Parse [good] w0 in
  (length <$> splitAsh0Bundle payload_three) = Ret 3
  ∧ run.1 = Halt (log_Fatal (errors_New "failed to split data"))
  ∧ fs run.2 !! output_path "b" = None
  ∧ alone.1 = Ret ()
  ∧ fs alone.2 !! output_path "b" ≠ None.
Proof. cbv zeta. split_and!; by vm_compute. Qed.

Lemma convertLevelData_rejects_3_or_5_witness :
  let segs := [ASH0 ++ bytes "aa"; ASH0 ++ bytes "b"; ASH0 ++ bytes "ccc"] in
  ReadLine payload_three = (status_200, false, None)
  ∧ strings_Contains status_200 ["2"; "0"; "0"]%byte = true
  ∧ splitAsh0Bundle payload_three = Ret segs
  ∧ (length segs = 3 ∨ length segs = 5)
  ∧ io_ok 2 w0
  ∧ convertLevelData sample_Decompress "lvl" payload_three w0
    = (Ret (Some (errors_New "failed to split data")),
       deferred_Closes (output_path "lvl")
         (set_stage (<[output_path "lvl" := writing]> (stage w0))
            (set_fs (<[output_path "lvl" := []]> (fs w0))
                    (set_calls (calls w0 + 2) w0)))).
Proof.
  cbv zeta. split_and!; [by vm_compute..|by left|by intros k _|].
  apply (convertLevelData_rejects_3_or_5 sample_Decompress "lvl" payload_three
           status_200 false
           [ASH0 ++ bytes "aa"; ASH0 ++ bytes "b"; ASH0 ++ bytes "ccc"] w0);
    [by vm_compute..|by left|by intros k _].
Defined.

(** C6, as stated, fails: a payload that splits into exactly 3 segments but
    whose first line lacks "200" is not rejected; [convertLevelData] returns
    nil and the loop counts the record as done. *)
Lemma convertLevelData_accepts_3_without_200 :
  let run := extract_file sample_Decompress sample_url_Parse
               [response "http://host/a" payload_three_404] w0 in
  (length <$> splitAsh0Bundle payload_three_404) = Ret 3
  ∧ convertLevelData sample_Decompress "a" payload_three_404 w0 = (Ret None, w0)
  ∧ run.1 = Ret ()
  ∧ bar run.2 = 1.
Proof. cbv zeta. split_and!; by vm_compute. Qed.

Lemma convertLevelData_decompress_nil_witness :
  let segs := [ASH0 ++ bytes "aa"; ASH0 ++ bytes "b"; ASH0; ASH0 ++ bytes "d"] in
  ReadLine payload_bare = (status_200, false, None)
  ∧ strings_Contains status_200 ["2"; "0"; "0"]%byte = true
  ∧ splitAsh0Bundle payload_bare = Ret segs
  ∧ length segs = 4
  ∧ (segs !! 2 = Some ASH0 ∧ sample_Decompress ASH0 = None
     ∧ Forall2 (λ s d, sample_Decompress s = Some d) (take 2 segs) [bytes "aa"; bytes "b"]
     ∧ io_ok (2 + 2 * 2) w0
     ∧ convertLevelData sample_Decompress "lvl" payload_bare w0
       = (Ret (Some (errors_New "failed to decompress")),
          deferred_Closes (output_path "lvl")
            (set_stage (<[output_path "lvl" := writing]> (stage w0))
               (set_fs (<[output_path "lvl" :=
                           [entry_of 0 "thumbnail0.tnl" (bytes "aa");
                            entry_of 0 "course_data.cdt" (bytes "b")]]> (fs w0))
                       (set_calls (calls w0 + (2 + 2 * 2)) w0))))).
Proof.
  cbv zeta.
  pose proof (convertLevelData_decompress_nil sample_Decompress "lvl" payload_bare
                status_200 false
                [ASH0 ++ bytes "aa"; ASH0 ++ bytes "b"; ASH0; ASH0 ++ bytes "d"] w0
                ltac:(by vm_compute) ltac:(by vm_compute) ltac:(by vm_compute)
                ltac:(by vm_compute)) as [Hnil _].
  assert (Forall2 (λ s d, sample_Decompress s = Some d)
            [ASH0 ++ bytes "aa"; ASH0 ++ bytes "b"] [bytes "aa"; bytes "b"]) as HF
    by (repeat constructor).
  split_and!; [by vm_compute..|done|by intros k _|].
  apply (Hnil 2 ASH0 [bytes "aa"; bytes "b"]);
    [by vm_compute|by vm_compute|done|by intros k _].
Defined.

(** C7, as stated, fails: a decoder that gives an empty slice which is not
    nil is accepted; the record succeeds and its four entries are empty. *)
Lemma convertLevelData_accepts_empty :
  let run := convertLevelData empty_Decompress "lvl" payload_ok w0 in
  (∀ seg, empty_Decompress seg = Some [])
  ∧ run.1 = Ret None
  ∧ fs run.2 !! output_path "lvl"
    = Some [entry_of 0 "thumbnail0.tnl" []; entry_of 0 "course_data.cdt" [];
            entry_of 0 "course_data_sub.cdt" []; entry_of 0 "thumbnail1.tnl" []].
Proof. cbv zeta. split_and!; by vm_compute. Qed.

Lemma extract_file_skips_other_types_witness :
  let record := {| WARC_Type := "request"; WARC_Target_URI := "http://host/a";
                   Content := bytes "A" |} in
  WARC_Type record ≠ "response"
  ∧ extract_file sample_Decompress sample_url_Parse
      [record; response "http://host/b" payload_ok] w0
    = extract_file sample_Decompress sample_url_Parse
        [response "http://host/b" payload_ok] w0.
Proof.
  cbv zeta. split; [done|].
  apply (extract_file_skips_other_types sample_Decompress sample_url_Parse). done.
Defined.

Lemma convertLevelData_skips_without_200_witness :
  ReadLine payload_three_404 = (status_404, false, None)
  ∧ strings_Contains status_404 ["2"; "0"; "0"]%byte = false
  ∧ convertLevelData sample_Decompress "lvl" payload_three_404 w0 = (Ret None, w0).
Proof.
  split_and!; [by vm_compute..|].
  apply (convertLevelData_skips_without_200 sample_Decompress "lvl"
           payload_three_404 status_404 false w0); by vm_compute.
Defined.

Example split_two :
  splitAsh0Bundle ("x" :: ASH0 ++ ["a"; "b"] ++ ASH0 ++ ["c"])%byte
  = Ret [ASH0 ++ ["a"; "b"]; ASH0 ++ ["c"]]%byte.
Proof. reflexivity. Qed.

Example split_none : splitAsh0Bundle ["x"; "y"]%byte = Halt (os_Exit 1).
Proof. reflexivity. Qed.

Example split_cut : splitAsh0Bundle (ASH0 ++ ["x"; "A"; "S"])%byte
  = Halt (runtime_panic index_out_of_range).
Proof. reflexivity. Qed.

(** * Further properties of the splitter *)

Lemma scan_rest_skip X R acc cur :
  strings_Contains X ASH0 = false →
  ASH0 `prefix_of` R ∨ (R = [] ∧ cut_marker_tail X = false) →
  scan_rest (X ++ R) acc cur = scan_rest R acc ((λ c, c ++ X) <$> cur).
Proof.
  destruct cur as [c|]; [apply scan_rest_body|].
  induction X as [|b X IH]; intros HX HR; [done|].
  apply strings_Contains_cons in HX as [Hp HX].
  change ((b :: X) ++ R) with (b :: (X ++ R)). cbn [scan_rest].
  destruct (ash0_at (b :: X ++ R) 0) as [[|]|h] eqn:E; cbn.
  - apply ash0_at_true in E. exfalso.
    apply (ASH0_no_straddle (b :: X) R); [done|done| |done]. naive_solver.
  - apply IH; [done|].
    destruct HR as [?|[-> ?]]; eauto using cut_marker_tail_tl.
  - exfalso. apply ash0_at_halt in E as [_ E].
    destruct HR as [[k ->]|[-> Hc]].
    + destruct E as [E|[E|[E|E]]]; apply (f_equal length) in E;
        cbn in E; rewrite length_app in E; cbn in E; lia.
    + rewrite app_nil_r in E.
      assert (cut_marker_tail (b :: X) = true); [|congruence].
      apply cut_marker_tail_cons. left. naive_solver.
Qed.

(** X1.  Bytes before the first marker are ignored, as the comment of
    [splitAsh0Bundle] says: with a marker-free [junk] in front, the call
    behaves as on the buffer from the marker on, whatever follows. *)
Theorem splitAsh0Bundle_ignores_leading_bytes (junk T : list byte) :
  strings_Contains junk ASH0 = false →
  splitAsh0Bundle (junk ++ ASH0 ++ T) = splitAsh0Bundle (ASH0 ++ T).
Proof.
  intros Hj. rewrite !splitAsh0Bundle_scan_rest.
  rewrite scan_rest_skip; [done|done|]. left. by exists T.
Qed.

Lemma splitAsh0Bundle_ignores_leading_bytes_witness :
  strings_Contains (status_200 ++ crlf) ASH0 = false
  ∧ splitAsh0Bundle ((status_200 ++ crlf) ++ ASH0 ++ bytes "xA")
    = splitAsh0Bundle (ASH0 ++ bytes "xA").
Proof.
  split; [by vm_compute|].
  apply (splitAsh0Bundle_ignores_leading_bytes (status_200 ++ crlf) (bytes "xA")).
  by vm_compute.
Defined.

Lemma scan_rest_bundles on_none Xs :
  ∀ acc cur,
  Xs ≠ [] → Forall (λ X, strings_Contains X ASH0 = false) Xs →
  cut_marker_tail (default [] (last Xs)) = false →
  scan_rest (concat (map (app ASH0) Xs)) acc cur ≫= finish on_none
  = Ret (acc ++ option_list cur ++ map (app ASH0) Xs).
Proof.
  induction Xs as [|X Xs IH]; intros acc cur Hne HF Hcut; [done|].
  apply Forall_cons in HF as [HX HF]. cbn [map concat].
  rewrite <- app_assoc, scan_rest_marker.
  destruct Xs as [|X2 Xs].
  - cbn [map concat]. rewrite scan_rest_body by eauto.
    cbn. by rewrite <- app_assoc.
  - rewrite scan_rest_body; [|done|].
    2: { left. cbn [map concat]. rewrite <- app_assoc. by eexists. }
    rewrite IH; [|done|done|by rewrite last_cons_cons in Hcut].
    cbn [option_list]. by rewrite <- !app_assoc.
Qed.

(** X2.  Splitting undoes joining: for any number of bundles ASH0 X, whose
    payloads X hold no marker and the last of which does not stop in the
    middle of one, joined behind marker-free leading bytes,
    [splitAsh0Bundle] returns exactly the bundles, in order. *)
Theorem splitAsh0Bundle_join_split (junk : list byte) (Xs : list (list byte)) :
  Xs ≠ [] → strings_Contains junk ASH0 = false →
  Forall (λ X, strings_Contains X ASH0 = false) Xs →
  cut_marker_tail (default [] (last Xs)) = false →
  splitAsh0Bundle (junk ++ concat (map (app ASH0) Xs)) = Ret (map (app ASH0) Xs).
Proof.
  intros Hne Hj HF Hcut. rewrite splitAsh0Bundle_scan_rest.
  destruct Xs as [|X Xs]; [done|].
  rewrite scan_rest_skip; [|done|].
  2: { left. cbn [map concat]. rewrite <- app_assoc. by eexists. }
  by rewrite (scan_rest_bundles true).
Qed.

Lemma splitAsh0Bundle_join_split_witness :
  let Xs := [bytes "aa"; []; bytes "SH0"; bytes "A"; bytes "e"] in
  Xs ≠ [] ∧ strings_Contains (bytes "junk") ASH0 = false
  ∧ Forall (λ X, strings_Contains X ASH0 = false) Xs
  ∧ cut_marker_tail (default [] (last Xs)) = false
  ∧ splitAsh0Bundle (bytes "junk" ++ concat (map (app ASH0) Xs))
    = Ret (map (app ASH0) Xs).
Proof.
  cbv zeta.
  assert (Forall (λ X, strings_Contains X ASH0 = false)
            [bytes "aa"; []; bytes "SH0"; bytes "A"; bytes "e"]) as HF
    by (repeat constructor).
  split_and!; [done|by vm_compute|done|by vm_compute|].
  apply (splitAsh0Bundle_join_split (bytes "junk")
           [bytes "aa"; []; bytes "SH0"; bytes "A"; bytes "e"]);
    [done|by vm_compute|done|by vm_compute].
Defined.

Lemma marker_count_cons b l :
  marker_count (b :: l)
  = (if bool_decide (ASH0 `prefix_of` b :: l) then 1 else 0) + marker_count l.
Proof. reflexivity. Qed.

Lemma scan_rest_count rest :
  ∀ acc cur acc' cur',
  scan_rest rest acc cur = Ret (acc', cur') →
  length acc' + length (option_list cur')
  = length acc + length (option_list cur) + marker_count rest.
Proof.
  induction rest as [|b rest IH]; intros acc cur acc' cur' Hrun.
  - cbn in Hrun. simplify_eq. cbn.
    rewrite bool_decide_eq_false_2 by (intros [k Hk]; discriminate). lia.
  - cbn [scan_rest] in Hrun. rewrite marker_count_cons.
    destruct (ash0_at (b :: rest) 0) as [[|]|h] eqn:E; cbn in Hrun; [| |done].
    + apply ash0_at_true in E. rewrite bool_decide_eq_true_2 by done.
      apply IH in Hrun. rewrite length_app in Hrun. cbn in Hrun. lia.
    + apply ash0_at_false in E. rewrite bool_decide_eq_false_2 by done.
      apply IH in Hrun. destruct cur; cbn in *; lia.
Qed.

(** X3.  [splitAsh0Bundle] returns one segment for each position of the
    buffer where the marker stands. *)
Theorem splitAsh0Bundle_one_segment_per_marker (data : list byte) segs :
  splitAsh0Bundle data = Ret segs → length segs = marker_count data.
Proof.
  rewrite splitAsh0Bundle_scan_rest. intros Hrun.
  destruct (scan_rest data [] None) as [[acc [c|]]|h] eqn:E; [|done..].
  cbn in Hrun. simplify_eq. apply scan_rest_count in E.
  rewrite length_app. cbn in *. lia.
Qed.

Lemma splitAsh0Bundle_one_segment_per_marker_witness :
  let segs := [ASH0 ++ bytes "aa"; ASH0 ++ bytes "b"; ASH0 ++ bytes "ccc"] in
  splitAsh0Bundle payload_three = Ret segs
  ∧ length segs = marker_count payload_three.
Proof.
  cbv zeta. split; [by vm_compute|].
  apply (splitAsh0Bundle_one_segment_per_marker payload_three). by vm_compute.
Defined.

Lemma strings_Contains_false_drop l :
  (∀ j, ¬ ASH0 `prefix_of` drop j l) → strings_Contains l ASH0 = false.
Proof.
  induction l as [|b l IH]; intros H; cbn.
  - by rewrite bool_decide_eq_false_2 by (intros [k Hk]; discriminate).
  - rewrite bool_decide_eq_false_2 by apply (H 0).
    apply IH. intros j. apply (H (S j)).
Qed.

(** No window opens inside the segment [c] that is being read. *)
Lemma no_marker_inside (c r : list byte) :
  (∀ j, 1 ≤ j < length c → ¬ ASH0 `prefix_of` drop j (c ++ r)) →
  strings_Contains (drop 1 c) ASH0 = false.
Proof.
  intros H. apply strings_Contains_false_drop. intros j [k Hk].
  rewrite drop_drop in Hk.
  destruct (decide (1 + j < length c)) as [Hlt|Hge].
  - apply (H (1 + j)); [lia|]. rewrite drop_app_le by lia.
    rewrite Hk. exists (k ++ r). by rewrite <- app_assoc.
  - rewrite drop_ge in Hk by lia. discriminate.
Qed.

Lemma scan_rest_inside rest :
  ∀ acc c acc' cur',
  scan_rest rest acc (Some c) = Ret (acc', cur') →
  (∀ j, 1 ≤ j < length c → ¬ ASH0 `prefix_of` drop j (c ++ rest)) →
  Forall (λ s, strings_Contains (drop 1 s) ASH0 = false) acc →
  Forall (λ s, strings_Contains (drop 1 s) ASH0 = false) (acc' ++ option_list cur').
Proof.
  induction rest as [|b rest IH]; intros acc c acc' cur' Hrun Hin Hacc.
  - cbn in Hrun. simplify_eq. apply Forall_app. split; [done|].
    cbn. apply Forall_singleton. by apply (no_marker_inside c []).
  - cbn [scan_rest] in Hrun.
    destruct (ash0_at (b :: rest) 0) as [[|]|h] eqn:E; cbn in Hrun; [| |done].
    + apply IH in Hrun; [done|cbn; intros; lia|].
      apply Forall_app. split; [done|]. apply Forall_singleton.
      by apply (no_marker_inside c (b :: rest)).
    + apply ash0_at_false in E. apply IH in Hrun; [done| |done].
      intros j Hj. rewrite length_app in Hj. cbn in Hj.
      rewrite <- app_assoc. cbn.
      destruct (decide (j < length c)) as [Hlt|Hge]; [apply Hin; lia|].
      replace j with (length c + 0) by lia. by rewrite drop_app_add.
Qed.

Lemma scan_rest_inside_none rest :
  ∀ acc' cur',
  scan_rest rest [] None = Ret (acc', cur') →
  Forall (λ s, strings_Contains (drop 1 s) ASH0 = false) (acc' ++ option_list cur').
Proof.
  induction rest as [|b rest IH]; intros acc' cur' Hrun.
  - cbn in Hrun. by simplify_eq.
  - cbn [scan_rest] in Hrun.
    destruct (ash0_at (b :: rest) 0) as [[|]|h] eqn:E; cbn in Hrun; [| |done].
    + apply scan_rest_inside in Hrun; [done|cbn; intros; lia|done].
    + by apply IH.
Qed.

(** X4.  A returned segment holds one marker only, the one it begins with:
    no marker stands anywhere after its first byte. *)
Theorem splitAsh0Bundle_single_marker (data : list byte) segs :
  splitAsh0Bundle data = Ret segs →
  Forall (λ s, strings_Contains (drop 1 s) ASH0 = false) segs.
Proof.
  rewrite splitAsh0Bundle_scan_rest. intros Hrun.
  destruct (scan_rest data [] None) as [[acc [c|]]|h] eqn:E; [|done..].
  cbn in Hrun. simplify_eq. by apply scan_rest_inside_none in E.
Qed.

Lemma splitAsh0Bundle_single_marker_witness :
  let segs := [ASH0 ++ bytes "aa"; ASH0 ++ bytes "b"; ASH0 ++ bytes "ccc";
               ASH0 ++ bytes "d"] in
  splitAsh0Bundle payload_ok = Ret segs
  ∧ Forall (λ s, strings_Contains (drop 1 s) ASH0 = false) segs.
Proof.
  cbv zeta. split; [by vm_compute|].
  apply (splitAsh0Bundle_single_marker payload_ok). by vm_compute.
Defined.

(** X5.  What decides the outcome of [splitAsh0Bundle]: it returns exactly
    when the buffer holds a marker and does not stop in the middle of one,
    and it exits with status 1 exactly when the buffer holds no marker and
    does not stop in the middle of one. *)
Theorem splitAsh0Bundle_outcome (data : list byte) :
  ((∃ segs, splitAsh0Bundle data = Ret segs)
   ↔ strings_Contains data ASH0 = true ∧ cut_marker_tail data = false)
  ∧ (splitAsh0Bundle data = Halt (os_Exit 1)
     ↔ strings_Contains data ASH0 = false ∧ cut_marker_tail data = false).
Proof.
  rewrite splitAsh0Bundle_scan_rest.
  destruct (scan_rest data [] None) as [[acc cur]|h] eqn:E.
  - assert (cut_marker_tail data = false) as Hcut.
    { apply not_true_iff_false. intros Hc.
      assert (scan_rest data [] None = Halt (runtime_panic index_out_of_range))
        by by apply scan_rest_halt.
      congruence. }
    apply scan_rest_none in E.
    destruct (strings_Index data ASH0) as [k|] eqn:Hk.
    + destruct E as (c & -> & _). cbn.
      assert (strings_Contains data ASH0 = true) as Hc
        by (apply strings_Contains_Index; by rewrite Hk).
      split; split; try done; [by eexists|]. intros [? _]. congruence.
    + destruct E as [-> ->]. cbn.
      apply strings_Contains_false_Index in Hk.
      split; split; try done. 
      * by intros [? ?].
      * intros [? _]. congruence.
  - apply scan_rest_halt in E as [-> Hcut]. cbn.
    split; split; try done; try (intros [_ ?]; congruence). by intros [? ?].
Qed.

(** X6.  On a buffer that holds a marker the second source file's
    [splitAsh0Bundle] does what the one of [main.go] does. *)
Theorem Legacy_splitAsh0Bundle_agrees (data : list byte) :
  strings_Contains data ASH0 = true →
  Legacy.splitAsh0Bundle data = splitAsh0Bundle data.
Proof. apply Legacy_splitAsh0Bundle_segments. Qed.

Lemma Legacy_splitAsh0Bundle_agrees_witness :
  strings_Contains payload_ok ASH0 = true
  ∧ Legacy.splitAsh0Bundle payload_ok = splitAsh0Bundle payload_ok.
Proof.
  split; [by vm_compute|].
  apply (Legacy_splitAsh0Bundle_agrees payload_ok). by vm_compute.
Defined.

(** X7.  Without the guard of [main.go], a buffer that holds no marker makes
    the second source file's [splitAsh0Bundle] panic: on [data[start:]] with
    [start] still -1 when the scan stayed within the buffer, and in the scan
    otherwise. *)
Theorem Legacy_splitAsh0Bundle_no_marker_panics (data : list byte) :
  strings_Contains data ASH0 = false →
  Legacy.splitAsh0Bundle data
  = Halt (runtime_panic (if cut_marker_tail data then index_out_of_range
                         else slice_bounds_out_of_range)).
Proof.
  intros Hn. apply strings_Contains_false_Index in Hn.
  rewrite Legacy_splitAsh0Bundle_scan_rest.
  destruct (scan_rest data [] None) as [[acc cur]|h] eqn:E; cbn.
  - destruct (cut_marker_tail data) eqn:Hcut.
    { assert (scan_rest data [] None = Halt (runtime_panic index_out_of_range))
        by by apply scan_rest_halt.
      congruence. }
    apply scan_rest_none in E. rewrite Hn in E. by destruct E as [-> ->].
  - apply scan_rest_halt in E as [-> ->]. done.
Qed.

Lemma Legacy_splitAsh0Bundle_no_marker_panics_witness :
  strings_Contains payload_404 ASH0 = false
  ∧ Legacy.splitAsh0Bundle payload_404
    = Halt (runtime_panic slice_bounds_out_of_range).
Proof.
  split; [by vm_compute|].
  apply (Legacy_splitAsh0Bundle_no_marker_panics payload_404). by vm_compute.
Defined.

(** * Further properties of convertLevelData *)

Lemma ReadLine_cases data :
  (data = [] ∧ ReadLine data = ([], false, Some io_EOF))
  ∨ (data ≠ [] ∧ ∃ status isPrefix, ReadLine data = (status, isPrefix, None)).
Proof.
  destruct data as [|b data]; [by left|]. right. split; [done|].
  unfold ReadLine. destruct (IndexByte _ _); [by eauto|].
  case_decide; eauto.
Qed.

Ltac solve_touches :=
  unfold touches_only; simpl; split_and!; try done; try lia;
  intros ? ?; by rewrite ?lookup_insert_ne.

Lemma touches_only_refl path w : touches_only path 0 w w.
Proof. solve_touches. Qed.

Lemma touches_only_weaken path n m w w' :
  n ≤ m → touches_only path n w w' → touches_only path m w w'.
Proof.
  unfold touches_only. intros ? (?&?&?&?&?&?). split_and!; try done; lia.
Qed.

Lemma touches_only_trans path n m w1 w2 w3 :
  touches_only path n w1 w2 → touches_only path m w2 w3 →
  touches_only path (n + m) w1 w3.
Proof.
  unfold touches_only. intros (Hf1&Hs1&?&?&?&?) (Hf2&Hs2&?&?&?&?).
  split_and!; try congruence; try lia.
  - intros p Hp. by rewrite Hf2, Hf1.
  - intros p Hp. by rewrite Hs2, Hs1.
Qed.

Lemma touches_only_close_step path from to w :
  touches_only path 1 w (close_step path from to w).2.
Proof.
  destruct (close_step_world path from to w) as (s & -> & Hs). solve_touches.
Qed.

Lemma touches_only_deferred_Closes path w :
  touches_only path 3 w (deferred_Closes path w).
Proof.
  destruct (deferred_Closes_world path w) as (s & -> & Hs). solve_touches.
Qed.

Lemma touches_only_closing {A} path n w (r : outcome A * World) :
  touches_only path n w r.2 → touches_only path (n + 3) w (closing path r).2.
Proof.
  intros Hr. unfold closing. destruct (runs_deferred r.1); simpl.
  - eapply touches_only_trans; [done|apply touches_only_deferred_Closes].
  - eapply touches_only_weaken; [|done]. lia.
Qed.

Section MorePipelineFacts.

Context (Decompress : list byte → option (list byte)).
Context (url_Parse : string → URL + error).

(** Whatever its outcome, the loop over [fileNames] touches the archive
    only. *)
Lemma write_entries_touches path sd names :
  ∀ i es w r w',
  fs w !! path = Some es →
  write_entries Decompress path sd i names w = (r, w') →
  touches_only path (2 * length names) w w'.
Proof.
  induction names as [|name names IH]; intros i es w r w' Hes Hrun.
  - cbn in Hrun. unfold retM in Hrun. simplify_eq. apply touches_only_refl.
  - destruct (sd !! i) as [seg|] eqn:Hseg.
    2: { cbn [write_entries] in Hrun. rewrite bindM_unfold in Hrun.
         unfold lift, index in Hrun. rewrite Hseg in Hrun. simplify_eq.
         eapply touches_only_weaken, touches_only_refl. lia. }
    destruct (Decompress seg) as [d|] eqn:Hd.
    2: { rewrite (write_entries_nil_decode _ _ _ _ _ _ _ _ Hseg Hd) in Hrun.
         simplify_eq. eapply touches_only_weaken, touches_only_refl. lia. }
    rewrite (write_entries_step _ _ _ _ _ _ _ _ _ _ Hseg Hd Hes) in Hrun.
    replace (2 * length (name :: names)) with (2 + 2 * length names)
      by (cbn; lia).
    destruct (io w (calls w)).
    { simplify_eq. solve_touches. }
    destruct (io w (S (calls w))).
    { simplify_eq. solve_touches. }
    eapply touches_only_trans; [|eapply IH; [|done]; apply lookup_insert_eq].
    solve_touches.
Qed.

(** The errors the loop can return. *)
Lemma write_entries_errors path sd names :
  ∀ i es w e w',
  fs w !! path = Some es →
  write_entries Decompress path sd i names w = (Ret (Some e), w') →
  e = errors_New "failed to decompress"
  ∨ ∃ k, calls w ≤ k < calls w + 2 * length names ∧ io w k = Some e.
Proof.
  induction names as [|name names IH]; intros i es w e w' Hes Hrun; [done|].
  destruct (sd !! i) as [seg|] eqn:Hseg.
  2: { cbn [write_entries] in Hrun. rewrite bindM_unfold in Hrun.
       unfold lift, index in Hrun. by rewrite Hseg in Hrun. }
  destruct (Decompress seg) as [d|] eqn:Hd.
  2: { rewrite (write_entries_nil_decode _ _ _ _ _ _ _ _ Hseg Hd) in Hrun.
       left. congruence. }
  rewrite (write_entries_step _ _ _ _ _ _ _ _ _ _ Hseg Hd Hes) in Hrun.
  cbn [length].
  destruct (io w (calls w)) eqn:E1.
  { simplify_eq. right. exists (calls w). split; [lia|done]. }
  destruct (io w (S (calls w))) eqn:E2.
  { simplify_eq. right. exists (S (calls w)). split; [lia|done]. }
  eapply IH in Hrun as [->|(k & Hk & Hio)]; [by left| |apply lookup_insert_eq].
  right. exists k. simpl in Hk, Hio. split; [lia|done].
Qed.

(** With enough segments the loop never ends the process. *)
Lemma write_entries_no_halt path sd names :
  ∀ i es w h w',
  i + length names ≤ length sd → fs w !! path = Some es →
  write_entries Decompress path sd i names w ≠ (Halt h, w').
Proof.
  induction names as [|name names IH]; intros i es w h w' Hlen Hes Hrun; [done|].
  cbn [length] in Hlen.
  destruct (lookup_lt_is_Some_2 sd i) as [seg Hseg]; [lia|].
  destruct (Decompress seg) as [d|] eqn:Hd.
  2: { by rewrite (write_entries_nil_decode _ _ _ _ _ _ _ _ Hseg Hd) in Hrun. }
  rewrite (write_entries_step _ _ _ _ _ _ _ _ _ _ Hseg Hd Hes) in Hrun.
  destruct (io w (calls w)); [done|].
  destruct (io w (S (calls w))); [done|].
  eapply IH in Hrun; [done|lia|apply lookup_insert_eq].
Qed.

End MorePipelineFacts.

Lemma splitAsh0Bundle_halts data h :
  splitAsh0Bundle data = Halt h →
  h = os_Exit 1 ∨ h = runtime_panic index_out_of_range.
Proof.
  rewrite splitAsh0Bundle_scan_rest.
  destruct (scan_rest data [] None) as [[acc [c|]]|h'] eqn:E; cbn; [done| |].
  - intros [= <-]. by left.
  - apply scan_rest_halt in E as [-> _]. intros [= <-]. by right.
Qed.

Section ConvertFacts.

Context (Decompress : list byte → option (list byte)).

Lemma convertLevelData_frame id data w r w' :
  convertLevelData Decompress id data w = (r, w') →
  touches_only (output_path id) 13 w w'.
Proof.
  intros Hrun.
  destruct (ReadLine_cases data) as [[-> HR]|[_ (status & p & HR)]].
  { cbn in Hrun. unfold retM in Hrun. simplify_eq.
    eapply touches_only_weaken, touches_only_refl. lia. }
  destruct (strings_Contains status ["2"; "0"; "0"]%byte) eqn:Hc.
  2: { rewrite (convertLevelData_no_200 _ _ _ _ _ _ HR Hc) in Hrun.
       simplify_eq. eapply touches_only_weaken, touches_only_refl. lia. }
  rewrite (convertLevelData_200 _ _ _ _ _ _ HR Hc) in Hrun.
  destruct (io w (calls w)).
  { simplify_eq. solve_touches. }
  cbv zeta in Hrun.
  assert (touches_only (output_path id) 2 w
            (set_stage (<[output_path id := writing]> (stage w))
               (set_fs (<[output_path id := []]> (fs w))
                       (set_calls (S (S (calls w))) w)))) as H2
    by solve_touches.
  destruct (io w (S (calls w))).
  { simplify_eq. eapply touches_only_weaken;
      [|eapply touches_only_trans; [exact H2|apply touches_only_close_step]].
    lia. }
  apply (f_equal snd) in Hrun. cbn [snd] in Hrun. subst w'.
  apply (touches_only_closing _ 10).
  destruct (splitAsh0Bundle data) as [segs|h]; [|eapply touches_only_weaken; [|exact H2]; lia].
  case_decide; [eapply touches_only_weaken; [|exact H2]; lia|].
  destruct (write_entries Decompress _ _ _ _ _) as [r0 w0] eqn:Hw.
  apply write_entries_touches with (es := []) in Hw; [|apply lookup_insert_eq].
  apply (touches_only_trans _ 2 8 _ _ _ H2 Hw).
Qed.

(** X8.  Whatever its outcome, [convertLevelData] leaves every file other
    than [output/<id>.tar.zst] as it was, written entries and stage alike,
    and the progress bar and the clock too; it makes at most 13
    input/output calls, the three deferred [Close] calls among them. *)
Theorem convertLevelData_touches_only_its_archive id data w r w' :
  convertLevelData Decompress id data w = (r, w') →
  touches_only (output_path id) 13 w w'.
Proof. apply convertLevelData_frame. Qed.

(** X9.  The errors [convertLevelData] can return: [io.EOF] (for an empty
    payload), "failed to split data", "failed to decompress", or the error
    of one of its first 10 input/output calls (the errors of the deferred
    [Close] calls that follow are dropped). *)
Theorem convertLevelData_errors id data w e w' :
  convertLevelData Decompress id data w = (Ret (Some e), w') →
  e = io_EOF
  ∨ e = errors_New "failed to split data"
  ∨ e = errors_New "failed to decompress"
  ∨ ∃ k, calls w ≤ k < calls w + 10 ∧ io w k = Some e.
Proof.
  intros Hrun.
  destruct (ReadLine_cases data) as [[-> HR]|[_ (status & p & HR)]].
  { cbn in Hrun. unfold retM in Hrun. left. congruence. }
  destruct (strings_Contains status ["2"; "0"; "0"]%byte) eqn:Hc.
  2: { by rewrite (convertLevelData_no_200 _ _ _ _ _ _ HR Hc) in Hrun. }
  rewrite (convertLevelData_200 _ _ _ _ _ _ HR Hc) in Hrun.
  destruct (io w (calls w)) eqn:E1.
  { simplify_eq. do 3 right. exists (calls w). split; [lia|done]. }
  cbv zeta in Hrun.
  destruct (io w (S (calls w))) eqn:E2.
  { simplify_eq. do 3 right. exists (S (calls w)). split; [lia|done]. }
  apply closing_Ret_inv in Hrun as (w'' & Hrun & _).
  destruct (splitAsh0Bundle data) as [segs|h]; [|done].
  case_decide.
  { right. left. congruence. }
  apply write_entries_errors with (es := []) in Hrun
    as [->|(k & Hk & Hio)]; [by right; right; left| |apply lookup_insert_eq].
  do 3 right. exists k. simpl in Hk, Hio. split; [cbn in Hk; lia|done].
Qed.

(** X10.  [convertLevelData] ends the process only through the splitter, by
    its exit (no marker) or its out-of-range panic; the output file has then
    been created and holds nothing. *)
Theorem convertLevelData_halts_in_splitter id data w h w' :
  convertLevelData Decompress id data w = (Halt h, w') →
  splitAsh0Bundle data = Halt h
  ∧ (h = os_Exit 1 ∨ h = runtime_panic index_out_of_range)
  ∧ fs w' !! output_path id = Some [].
Proof.
  intros Hrun.
  destruct (ReadLine_cases data) as [[-> HR]|[_ (status & p & HR)]]; [done|].
  destruct (strings_Contains status ["2"; "0"; "0"]%byte) eqn:Hc.
  2: { by rewrite (convertLevelData_no_200 _ _ _ _ _ _ HR Hc) in Hrun. }
  rewrite (convertLevelData_200 _ _ _ _ _ _ HR Hc) in Hrun.
  destruct (io w (calls w)); [done|]. cbv zeta in Hrun.
  destruct (io w (S (calls w))); [done|].
  apply closing_Halt_inv in Hrun as (w'' & Hrun & ->).
  destruct (splitAsh0Bundle data) as [segs|h0] eqn:Hs.
  - case_decide as Hlen; [done|]. exfalso.
    eapply write_entries_no_halt in Hrun; [done| |apply lookup_insert_eq].
    rewrite Hlen. cbn. lia.
  - simplify_eq. split_and!; [done|by eapply splitAsh0Bundle_halts|].
    destruct (runs_deferred _); rewrite ?fs_deferred_Closes; simpl;
      apply lookup_insert_eq.
Qed.

Lemma convertLevelData_success id data status isPrefix segs ds w :
  ReadLine data = (status, isPrefix, None) →
  strings_Contains status ["2"; "0"; "0"]%byte = true →
  splitAsh0Bundle data = Ret segs → length segs = 4 →
  Forall2 (λ seg d, Decompress seg = Some d) segs ds →
  io_ok 10 w →
  convertLevelData Decompress id data w
  = (Ret None,
     deferred_Closes (output_path id)
       (set_stage (<[output_path id := writing]> (stage w))
          (set_fs (<[output_path id := zip_with (entry_of (clock w)) fileNames ds]>
                     (fs w))
                  (set_calls (calls w + 10) w)))).
Proof.
  intros HR Hc Hs Hlen HF Hio.
  rewrite (convertLevelData_200 _ _ _ _ _ _ HR Hc).
  rewrite (io_ok_0 _ _ Hio), (io_ok_1 _ _ Hio). cbv zeta. rewrite Hs.
  rewrite decide_False by (cbn; lia).
  rewrite <- (app_nil_r fileNames) at 1.
  rewrite (write_entries_prefix _ _ _ _ _ 0 ds []).
  - change (write_entries Decompress ?p ?sd ?i [] ?w0) with (@Ret (option error) None, w0).
    rewrite closing_Ret. simpl. autorewrite with world. rewrite insert_insert_eq.
    do 5 f_equal. lia.
  - rewrite drop_0. change (length fileNames) with 4.
    by rewrite <- Hlen, firstn_all.
  - apply Forall2_length in HF. cbn. lia.
  - intros k Hk. simpl.
    replace (S (S (calls w + k))) with (calls w + (2 + k)) by lia.
    apply Hio. cbn in Hk. lia.
  - apply lookup_insert_eq.
Qed.

(** X11.  When the first line holds "200", the payload splits into four
    segments that all decode, and the first 10 input/output calls succeed,
    [convertLevelData] returns nil and the four entries have been written to
    the file [output/<id>.tar.zst], with mode 0644 and the time of the
    clock, whatever the file held before; the three deferred [Close] calls
    have run after that, and when they succeed too the archive is
    complete. *)
Theorem convertLevelData_writes_archive id data status isPrefix segs ds w :
  ReadLine data = (status, isPrefix, None) →
  strings_Contains status ["2"; "0"; "0"]%byte = true →
  splitAsh0Bundle data = Ret segs → length segs = 4 →
  Forall2 (λ seg d, Decompress seg = Some d) segs ds →
  io_ok 10 w →
  let w' := deferred_Closes (output_path id)
              (set_stage (<[output_path id := writing]> (stage w))
                 (set_fs (<[output_path id
                            := zip_with (entry_of (clock w)) fileNames ds]> (fs w))
                         (set_calls (calls w + 10) w))) in
  convertLevelData Decompress id data w = (Ret None, w')
  ∧ fs w' !! output_path id = Some (zip_with (entry_of (clock w)) fileNames ds)
  ∧ (io_ok 13 w → stage w' !! output_path id = Some complete).
Proof.
  intros HR Hc Hs Hlen HF Hio. cbv zeta. split_and!.
  - by eapply convertLevelData_success.
  - rewrite fs_deferred_Closes. simpl. apply lookup_insert_eq.
  - intros Hio'. apply deferred_Closes_complete; [apply lookup_insert_eq|].
    intros k Hk. simpl. rewrite <- Nat.add_assoc. apply Hio'. lia.
Qed.

End ConvertFacts.

Lemma convertLevelData_touches_only_its_archive_witness :
  let run := convertLevelData sample_Decompress "lvl" payload_bare w_old in
  convertLevelData sample_Decompress "lvl" payload_bare w_old = (run.1, run.2)
  ∧ run.1 = Ret (Some (errors_New "failed to decompress"))
  ∧ touches_only (output_path "lvl") 13 w_old run.2.
Proof.
  cbv zeta. split_and!; [by vm_compute..|].
  apply (convertLevelData_touches_only_its_archive sample_Decompress "lvl"
           payload_bare w_old
           (convertLevelData sample_Decompress "lvl" payload_bare w_old).1).
  by vm_compute.
Defined.

Lemma convertLevelData_errors_witness :
  let run := convertLevelData sample_Decompress "lvl" payload_ok w_fail in
  run = (Ret (Some (io_Error 28)), run.2)
  ∧ (io_Error 28 = io_EOF
     ∨ io_Error 28 = errors_New "failed to split data"
     ∨ io_Error 28 = errors_New "failed to decompress"
     ∨ ∃ k, calls w_fail ≤ k < calls w_fail + 10 ∧ io w_fail k = Some (io_Error 28)).
Proof.
  cbv zeta. split; [by vm_compute|].
  apply (convertLevelData_errors sample_Decompress "lvl" payload_ok w_fail
           (io_Error 28)
           (convertLevelData sample_Decompress "lvl" payload_ok w_fail).2).
  by vm_compute.
Defined.

Lemma convertLevelData_halts_in_splitter_witness :
  let run := convertLevelData sample_Decompress "lvl" payload_no_marker w_old in
  run = (Halt (os_Exit 1), run.2)
  ∧ splitAsh0Bundle payload_no_marker = Halt (os_Exit 1)
  ∧ (os_Exit 1 = os_Exit 1 ∨ os_Exit 1 = runtime_panic index_out_of_range)
  ∧ fs run.2 !! output_path "lvl" = Some [].
Proof.
  cbv zeta. split; [by vm_compute|].
  apply (convertLevelData_halts_in_splitter sample_Decompress "lvl"
           payload_no_marker w_old (os_Exit 1)
           (convertLevelData sample_Decompress "lvl" payload_no_marker w_old).2).
  by vm_compute.
Defined.

Lemma convertLevelData_writes_archive_witness :
  let segs := [ASH0 ++ bytes "aa"; ASH0 ++ bytes "b"; ASH0 ++ bytes "ccc";
               ASH0 ++ bytes "d"] in
  let ds := [bytes "aa"; bytes "b"; bytes "ccc"; bytes "d"] in
  ReadLine payload_ok = (status_200, false, None)
  ∧ strings_Contains status_200 ["2"; "0"; "0"]%byte = true
  ∧ splitAsh0Bundle payload_ok = Ret segs ∧ length segs = 4
  ∧ Forall2 (λ seg d, sample_Decompress seg = Some d) segs ds
  ∧ io_ok 10 w_old
  ∧ let w' := deferred_Closes (output_path "lvl")
                (set_stage (<[output_path "lvl" := writing]> (stage w_old))
                   (set_fs (<[output_path "lvl"
                              := zip_with (entry_of (clock w_old)) fileNames ds]>
                              (fs w_old))
                           (set_calls (calls w_old + 10) w_old))) in
    convertLevelData sample_Decompress "lvl" payload_ok w_old = (Ret None, w')
    ∧ fs w' !! output_path "lvl"
      = Some (zip_with (entry_of (clock w_old)) fileNames ds)
    ∧ (io_ok 13 w_old → stage w' !! output_path "lvl" = Some complete).
Proof.
  cbv zeta.
  assert (Forall2 (λ seg d, sample_Decompress seg = Some d)
            [ASH0 ++ bytes "aa"; ASH0 ++ bytes "b"; ASH0 ++ bytes "ccc";
             ASH0 ++ bytes "d"]
            [bytes "aa"; bytes "b"; bytes "ccc"; bytes "d"]) as HF
    by (repeat constructor).
  do 4 (split; [by vm_compute|]). split; [done|]. split; [by intros k _|].
  apply (convertLevelData_writes_archive sample_Decompress "lvl" payload_ok
           status_200 false
           [ASH0 ++ bytes "aa"; ASH0 ++ bytes "b"; ASH0 ++ bytes "ccc";
            ASH0 ++ bytes "d"]
           [bytes "aa"; bytes "b"; bytes "ccc"; bytes "d"] w_old);
    [by vm_compute..|done|by intros k _].
Defined.

(** * Further properties of the record loop *)

Section ExtractFacts.

Context (Decompress : list byte → option (list byte)).
Context (url_Parse : string → URL + error).

(** One turn of the loop on a response record. *)
Lemma extract_file_cons_response record records w :
  WARC_Type record = "response" →
  extract_file Decompress url_Parse (record :: records) w =
  match url_Parse (WARC_Target_URI record) with
  | inr e => (Halt (log_Fatal e), w)
  | inl link =>
      match io w (calls w) with
      | Some e => (Halt (log_Fatal e), set_calls (S (calls w)) w)
      | None =>
          match convertLevelData Decompress (baseName (Path link)) (Content record)
                  (set_calls (S (calls w)) w) with
          | (Ret (Some e), w') => (Halt (log_Fatal e), w')
          | (Ret None, w') =>
              extract_file Decompress url_Parse records (set_bar (bar w' + 1) w')
          | (Halt h, w') => (Halt h, w')
          end
      end
  end.
Proof.
  intros Ht. destruct (url_Parse (WARC_Target_URI record)) as [link|e] eqn:Hu.
  - by rewrite (extract_file_response _ _ _ _ _ _ Ht Hu).
  - cbn [extract_file].
    rewrite decide_False by (by rewrite Ht; intros []). by rewrite Hu.
Qed.

Lemma extract_file_filter records :
  ∀ w,
  extract_file Decompress url_Parse records w
  = extract_file Decompress url_Parse
      (filter (λ r, WARC_Type r = "response") records) w.
Proof.
  induction records as [|r rs IH]; intros w; [done|].
  destruct (decide (WARC_Type r = "response")) as [Ht|Ht].
  - rewrite filter_cons_True by done.
    rewrite !(extract_file_cons_response _ _ _ Ht).
    destruct (url_Parse _); [|done]. destruct (io w (calls w)); [done|].
    destruct (convertLevelData _ _ _ _) as [[[e|]|h] w']; try done.
  - rewrite filter_cons_False by done. cbn [extract_file].
    by rewrite decide_True.
Qed.

(** X12.  The run is decided by the response records alone: records of any
    other type can be taken out of the sequence, anywhere, without changing
    the outcome or the world the run leaves. *)
Theorem extract_file_only_responses records w :
  extract_file Decompress url_Parse records w
  = extract_file Decompress url_Parse
      (filter (λ r, WARC_Type r = "response") records) w.
Proof. apply extract_file_filter. Qed.

Lemma extract_file_bar records :
  ∀ w w',
  extract_file Decompress url_Parse records w = (Ret (), w') →
  bar w' = bar w + length (filter (λ r, WARC_Type r = "response") records).
Proof.
  induction records as [|r rs IH]; intros w w' Hrun.
  - cbn in Hrun. unfold retM in Hrun. simplify_eq. cbn. lia.
  - destruct (decide (WARC_Type r = "response")) as [Ht|Ht].
    + rewrite filter_cons_True by done.
      rewrite (extract_file_cons_response _ _ _ Ht) in Hrun.
      destruct (url_Parse _); [|done]. destruct (io w (calls w)); [done|].
      destruct (convertLevelData _ _ _ _) as [[[e|]|h] w''] eqn:Hc; try done.
      apply IH in Hrun. apply convertLevelData_frame in Hc as (_&_&Hbar&_).
      simpl in Hrun, Hbar. cbn [length]. lia.
    + rewrite filter_cons_False by done. cbn [extract_file] in Hrun.
      rewrite decide_True in Hrun by done. by apply IH.
Qed.

(** X13.  When a run comes to its end, the progress bar has advanced by
    exactly the number of response records, those whose first line lacks
    "200", for which nothing is written, included. *)
Theorem extract_file_counts_responses records w w' :
  extract_file Decompress url_Parse records w = (Ret (), w') →
  bar w' = bar w + length (filter (λ r, WARC_Type r = "response") records).
Proof. apply extract_file_bar. Qed.

Lemma extract_file_app records1 records2 :
  ∀ w,
  extract_file Decompress url_Parse (records1 ++ records2) w =
  match extract_file Decompress url_Parse records1 w with
  | (Ret _, w') => extract_file Decompress url_Parse records2 w'
  | (Halt h, w') => (Halt h, w')
  end.
Proof.
  induction records1 as [|r rs IH]; intros w; [done|].
  change ((r :: rs) ++ records2) with (r :: (rs ++ records2)).
  destruct (decide (WARC_Type r = "response")) as [Ht|Ht].
  - rewrite !(extract_file_cons_response _ _ _ Ht).
    destruct (url_Parse _); [|done]. destruct (io w (calls w)); [done|].
    destruct (convertLevelData _ _ _ _) as [[[e|]|h] w']; try done.
  - cbn [extract_file]. by rewrite !decide_True.
Qed.

(** X14.  Runs compose: the run over [records1 ++ records2] is the run over
    [records1] followed, in the world it leaves, by the run over
    [records2]; and when the first run ends the process, no record of
    [records2] is touched. *)
Theorem extract_file_sequence records1 records2 w :
  extract_file Decompress url_Parse (records1 ++ records2) w =
  match extract_file Decompress url_Parse records1 w with
  | (Ret _, w') => extract_file Decompress url_Parse records2 w'
  | (Halt h, w') => (Halt h, w')
  end.
Proof. apply extract_file_app. Qed.

(** X15.  A response record with a good payload (first line with "200",
    four segments that decode, input and output succeeding) gets its archive
    under the last component of its URI path, the deferred [Close] calls run,
    the record is counted, and the run goes on with the next record. *)
Theorem extract_file_converts record records link status isPrefix segs ds w :
  WARC_Type record = "response" →
  url_Parse (WARC_Target_URI record) = inl link →
  ReadLine (Content record) = (status, isPrefix, None) →
  strings_Contains status ["2"; "0"; "0"]%byte = true →
  splitAsh0Bundle (Content record) = Ret segs → length segs = 4 →
  Forall2 (λ seg d, Decompress seg = Some d) segs ds →
  io_ok 11 w →
  extract_file Decompress url_Parse (record :: records) w
  = extract_file Decompress url_Parse records
      (set_bar (bar w + 1)
         (deferred_Closes (output_path (baseName (Path link)))
            (set_stage (<[output_path (baseName (Path link)) := writing]> (stage w))
               (set_fs (<[output_path (baseName (Path link))
                          := zip_with (entry_of (clock w)) fileNames ds]> (fs w))
                       (set_calls (calls w + 11) w))))).
Proof.
  intros Ht Hu HR Hc Hs Hlen HF Hio.
  rewrite (extract_file_cons_response _ _ _ Ht), Hu, (io_ok_0 _ _ Hio).
  rewrite (convertLevelData_success _ _ _ _ _ _ ds _ HR Hc Hs Hlen HF).
  - rewrite bar_deferred_Closes. simpl. autorewrite with world.
    do 6 f_equal. lia.
  - intros k Hk. simpl. replace (S (calls w + k)) with (calls w + (1 + k)) by lia.
    apply Hio. lia.
Qed.

(** X16.  A response record whose first line lacks "200" is counted by the
    progress bar although nothing is written for it: the run goes on with
    the bar advanced by one and the file system as it was. *)
Theorem extract_file_counts_skipped_status record records link status isPrefix w :
  WARC_Type record = "response" →
  url_Parse (WARC_Target_URI record) = inl link →
  ReadLine (Content record) = (status, isPrefix, None) →
  strings_Contains status ["2"; "0"; "0"]%byte = false →
  io_ok 1 w →
  extract_file Decompress url_Parse (record :: records) w
  = extract_file Decompress url_Parse records
      (set_bar (bar w + 1) (set_calls (S (calls w)) w)).
Proof.
  intros Ht Hu HR Hc Hio.
  rewrite (extract_file_cons_response _ _ _ Ht), Hu, (io_ok_0 _ _ Hio).
  by rewrite (convertLevelData_no_200 _ _ _ _ _ _ HR Hc).
Qed.

(** X17.  A response record with an empty payload ends the run:
    [convertLevelData] returns [io.EOF] before it creates any file, and the
    loop calls [log.Fatal] on it. *)
Theorem extract_file_empty_payload record records link w :
  WARC_Type record = "response" →
  url_Parse (WARC_Target_URI record) = inl link →
  Content record = [] → io_ok 1 w →
  extract_file Decompress url_Parse (record :: records) w
  = (Halt (log_Fatal io_EOF), set_calls (S (calls w)) w).
Proof.
  intros Ht Hu Hc Hio.
  rewrite (extract_file_cons_response _ _ _ Ht), Hu, (io_ok_0 _ _ Hio).
  by rewrite Hc.
Qed.

End ExtractFacts.

(** * The name of the output file *)

Lemma append_String c s t : String c s +:+ t = String c (s +:+ t).
Proof. reflexivity. Qed.

Lemma append_empty t : "" +:+ t = t.
Proof. reflexivity. Qed.

Lemma chars_app s t : chars (s +:+ t) = chars s ++ chars t.
Proof.
  induction s as [|c s IH]; [done|]. rewrite append_String.
  unfold chars in *. cbn. by rewrite IH.
Qed.

Lemma string_of_chars s : String.string_of_list_ascii (chars s) = s.
Proof. apply String.string_of_list_ascii_of_string. Qed.

Lemma strings_Split_nonempty s sep : strings_Split s sep ≠ [].
Proof.
  destruct s as [|c s]; [done|]. cbn. case_decide; [done|].
  by destruct (strings_Split s sep).
Qed.

Lemma strings_Split_no_sep s sep :
  Forall (λ part, sep ∉ chars part) (strings_Split s sep).
Proof.
  induction s as [|c s IH]; cbn.
  - apply Forall_singleton. apply not_elem_of_nil.
  - case_decide.
    + apply Forall_cons. split; [apply not_elem_of_nil|done].
    + destruct (strings_Split s sep) as [|p ps].
      * apply Forall_singleton. unfold chars. cbn.
        rewrite not_elem_of_cons. split; [done|apply not_elem_of_nil].
      * apply Forall_cons in IH as [Hp Hps]. apply Forall_cons. split; [|done].
        unfold chars in *. cbn. rewrite not_elem_of_cons. by split.
Qed.

Lemma strings_Split_whole s sep : sep ∉ chars s → strings_Split s sep = [s].
Proof.
  induction s as [|c s IH]; [done|]. unfold chars. cbn.
  rewrite not_elem_of_cons. intros [Hc Hs]. rewrite decide_False by done.
  by rewrite IH.
Qed.

Lemma strings_Split_app s t sep :
  strings_Split (s +:+ String sep t) sep
  = strings_Split s sep ++ strings_Split t sep.
Proof.
  induction s as [|c s IH].
  - rewrite append_empty. cbn. by rewrite decide_True.
  - rewrite append_String. cbn. case_decide; [by rewrite IH|].
    rewrite IH. pose proof (strings_Split_nonempty s sep).
    by destruct (strings_Split s sep).
Qed.

(** X18.  The name under which a record is written never holds a slash:
    whatever the URI path, the archive lies directly in [output/]. *)
Theorem baseName_no_slash (path : string) :
  "/"%char ∉ chars (baseName path).
Proof.
  unfold baseName. destruct (strings_Split_last path "/") as [x Hx].
  rewrite Hx. cbn. pose proof (strings_Split_no_sep path "/") as HF.
  rewrite Forall_forall in HF. apply HF. by eapply last_Some_elem_of.
Qed.

(** X19.  The name is what follows the last slash of the path: for a path
    [dir/file] with no slash in [file] it is [file]; a path that ends in a
    slash gives the empty name. *)
Theorem baseName_after_last_slash (dir file : string) :
  "/"%char ∉ chars file → baseName (dir +:+ "/" +:+ file) = file.
Proof.
  intros Hf. unfold baseName.
  change ("/" +:+ file) with (String "/" file).
  rewrite strings_Split_app, (strings_Split_whole file) by done.
  by rewrite last_snoc.
Qed.

Lemma baseName_after_last_slash_witness :
  ("/"%char ∉ chars "SMM1-0001")
  ∧ baseName ("/datastore/ds/1/data" +:+ "/" +:+ "SMM1-0001") = "SMM1-0001"
  ∧ ("/"%char ∉ chars "")
  ∧ baseName ("/datastore" +:+ "/" +:+ "") = "".
Proof.
  assert ("/"%char ∉ chars "SMM1-0001") as H1 by (by vm_compute; set_solver).
  assert ("/"%char ∉ chars "") as H2 by apply not_elem_of_nil.
  split_and!; [done| |done|].
  - apply (baseName_after_last_slash "/datastore/ds/1/data" "SMM1-0001" H1).
  - apply (baseName_after_last_slash "/datastore" "" H2).
Defined.

(** * Which archives extract_dir and main process *)

Lemma strings_HasSuffix_app base suffix :
  strings_HasSuffix (base +:+ suffix) suffix = true.
Proof.
  unfold strings_HasSuffix. rewrite chars_app.
  apply bool_decide_eq_true. by exists (chars base).
Qed.

Lemma strings_TrimSuffix_app base suffix :
  strings_TrimSuffix (base +:+ suffix) suffix = base.
Proof.
  unfold strings_TrimSuffix. rewrite strings_HasSuffix_app, chars_app.
  rewrite length_app, Nat.add_sub, take_app_length. apply string_of_chars.
Qed.

Lemma chars_inj s t : chars s = chars t → s = t.
Proof.
  intros H. rewrite <- (string_of_chars s), <- (string_of_chars t). by rewrite H.
Qed.

Lemma strings_TrimSuffix_inv s suffix :
  strings_HasSuffix s suffix = true →
  s = strings_TrimSuffix s suffix +:+ suffix.
Proof.
  intros H. unfold strings_TrimSuffix. rewrite H.
  apply bool_decide_eq_true in H as [k Hk]. apply chars_inj.
  rewrite chars_app. unfold chars at 2.
  rewrite String.list_ascii_of_string_of_list_ascii.
  rewrite Hk, length_app, Nat.add_sub. by rewrite take_app_length.
Qed.

(** A name that ends with [long] does not end with [short] when [short], no
    longer than [long], is not an ending of [long]. *)
Lemma strings_HasSuffix_other base long short :
  strings_HasSuffix long short = false →
  length (chars short) ≤ length (chars long) →
  strings_HasSuffix (base +:+ long) short = false.
Proof.
  unfold strings_HasSuffix. rewrite chars_app, !bool_decide_eq_false.
  intros Hn Hlen Hs. apply Hn.
  destruct (suffix_weak_total (chars short) (chars long) (chars base ++ chars long))
    as [H|H]; [done|by exists (chars base)|done|].
  apply suffix_length in H as Hl.
  assert (chars long = chars short) as ->; [|done].
  destruct H as [k Hk]. apply (f_equal length) in Hk as Hk'.
  rewrite length_app in Hk'. destruct k; [done|]. cbn in Hk'. lia.
Qed.

(** A name does not end with [short] when its last character is not the
    last character of [short]. *)
Lemma strings_HasSuffix_last base long short a b :
  last (chars long) = Some a → last (chars short) = Some b → a ≠ b →
  strings_HasSuffix (base +:+ long) short = false.
Proof.
  unfold strings_HasSuffix. rewrite chars_app, bool_decide_eq_false.
  intros Ha Hb Hab [k Hk]. apply (f_equal last) in Hk.
  rewrite !last_app, Ha, Hb in Hk. congruence.
Qed.

Lemma archiveFiles_app dir names1 names2 :
  archiveFiles dir (names1 ++ names2)
  = archiveFiles dir names1 ++ archiveFiles dir names2.
Proof.
  induction names1 as [|n names1 IH]; [done|]. cbn.
  destruct (strings_HasSuffix n ".warc.gz"); cbn; by rewrite IH.
Qed.

Lemma archiveFiles_spec (dir : string) (names : list string) (archiveFile : string) :
  archiveFile ∈ archiveFiles dir names
  ↔ ∃ base, base +:+ ".warc.gz" ∈ names ∧ archiveFile = dir +:+ "/" +:+ base.
Proof.
  induction names as [|n names IH]; cbn.
  - split; [by intros ?%elem_of_nil|]. by intros (b & ?%elem_of_nil & _).
  - destruct (strings_HasSuffix n ".warc.gz") eqn:Hn.
    + rewrite elem_of_cons, IH. split.
      * intros [->|(b & Hb & ->)].
        -- exists (strings_TrimSuffix n ".warc.gz"). split; [|done].
           rewrite <- strings_TrimSuffix_inv by done. apply elem_of_cons. by left.
        -- exists b. split; [apply elem_of_cons; by right|done].
      * intros (b & [<-|Hb]%elem_of_cons & ->).
        -- left. by rewrite strings_TrimSuffix_app.
        -- right. by exists b.
    + rewrite IH. split.
      * intros (b & Hb & ->). exists b. split; [apply elem_of_cons; by right|done].
      * intros (b & [<-|Hb]%elem_of_cons & ->).
        -- by rewrite strings_HasSuffix_app in Hn.
        -- by exists b.
Qed.

(** X22.  [extract_dir] processes [dir/base] exactly for the directory
    entries named [base.warc.gz]. *)
Theorem archiveFiles_elem_of (dir : string) (names : list string) (archiveFile : string) :
  archiveFile ∈ archiveFiles dir names
  ↔ ∃ base, base +:+ ".warc.gz" ∈ names ∧ archiveFile = dir +:+ "/" +:+ base.
Proof. apply archiveFiles_spec. Qed.

(** X23.  In a directory that holds the two files of each pair, every pair
    is processed once, in the order of the entries: the index file
    [base.warc.os.cdx.gz] is not taken for an archive. *)
Theorem archiveFiles_pairs (dir : string) (bases : list string) :
  archiveFiles dir
    (concat (map (λ base, [base +:+ ".warc.gz"; base +:+ ".warc.os.cdx.gz"]) bases))
  = map (λ base, dir +:+ "/" +:+ base) bases.
Proof.
  induction bases as [|b bases IH]; [done|]. cbn [map concat].
  rewrite archiveFiles_app, IH. cbn [archiveFiles].
  rewrite strings_HasSuffix_app, strings_TrimSuffix_app.
  rewrite (strings_HasSuffix_other b ".warc.os.cdx.gz" ".warc.gz");
    [done|by vm_compute|vm_compute; lia].
Qed.

Section MainFacts.

Context (os_Stat : string → bool + error).
Context (os_ReadDir : string → list string + error).

Lemma main_cases (base : string) (rest : list string) :
  main os_Stat os_ReadDir ((base +:+ ".warc.gz") :: rest) = main_runs [base]
  ∧ main os_Stat os_ReadDir ((base +:+ ".warc.os.cdx.gz") :: rest) = main_runs [base]
  ∧ main os_Stat os_ReadDir ((base +:+ ".warc.") :: rest) = main_runs [base].
Proof.
  unfold main. split_and!.
  - by rewrite strings_HasSuffix_app, strings_TrimSuffix_app.
  - rewrite (strings_HasSuffix_other base ".warc.os.cdx.gz" ".warc.gz");
      [|by vm_compute|vm_compute; lia].
    by rewrite strings_HasSuffix_app, strings_TrimSuffix_app.
  - rewrite (strings_HasSuffix_last base ".warc." ".warc.gz" "." "z"),
      (strings_HasSuffix_last base ".warc." ".warc.os.cdx.gz" "." "z");
      [|done..].
    by rewrite strings_HasSuffix_app, strings_TrimSuffix_app.
Qed.

(** X20.  Either file of a pair names the same archive: given
    [base.warc.gz] or [base.warc.os.cdx.gz] (or [base.warc.]) as first
    argument, [main] calls [extract_file] on [base], and on nothing else. *)
Theorem main_pair (base : string) (rest : list string) :
  main os_Stat os_ReadDir ((base +:+ ".warc.gz") :: rest) = main_runs [base]
  ∧ main os_Stat os_ReadDir ((base +:+ ".warc.os.cdx.gz") :: rest) = main_runs [base]
  ∧ main os_Stat os_ReadDir ((base +:+ ".warc.") :: rest) = main_runs [base].
Proof. apply main_cases. Qed.

(** X21.  [main] calls [extract_file] on an archive in two cases only: the
    first argument is the archive's name followed by [.warc.gz],
    [.warc.os.cdx.gz] or [.warc.]; or the first argument, which has none of
    these endings, is a directory, and the archive is [arg/base] for an
    entry [base.warc.gz] of that directory, reached through
    [extract_dir]. *)
Theorem main_extract_file_inv (args files : list string) (archiveFile : string) :
  main os_Stat os_ReadDir args = main_runs files → archiveFile ∈ files →
  ∃ arg rest, args = arg :: rest
    ∧ (arg = archiveFile +:+ ".warc.gz"
       ∨ arg = archiveFile +:+ ".warc.os.cdx.gz"
       ∨ arg = archiveFile +:+ ".warc."
       ∨ (strings_HasSuffix arg ".warc.gz" = false
          ∧ strings_HasSuffix arg ".warc.os.cdx.gz" = false
          ∧ strings_HasSuffix arg ".warc." = false
          ∧ os_Stat arg = inl true
          ∧ ∃ names base,
              os_ReadDir arg = inl names
              ∧ base +:+ ".warc.gz" ∈ names
              ∧ archiveFile = arg +:+ "/" +:+ base)).
Proof.
  destruct args as [|arg rest]; [done|]. cbn [main]. intros H Hin.
  exists arg, rest. split; [done|].
  destruct (strings_HasSuffix arg ".warc.gz") eqn:H1.
  { simplify_eq. apply list_elem_of_singleton in Hin as ->.
    left. by apply strings_TrimSuffix_inv. }
  destruct (strings_HasSuffix arg ".warc.os.cdx.gz") eqn:H2.
  { simplify_eq. apply list_elem_of_singleton in Hin as ->.
    right. left. by apply strings_TrimSuffix_inv. }
  destruct (strings_HasSuffix arg ".warc.") eqn:H3.
  { simplify_eq. apply list_elem_of_singleton in Hin as ->.
    right. right. left. by apply strings_TrimSuffix_inv. }
  destruct (os_Stat arg) as [[|]|e] eqn:Hstat; [|done..].
  destruct (os_ReadDir arg) as [names|e] eqn:Hdir; [|done].
  simplify_eq. unfold extract_dir in Hin.
  apply archiveFiles_spec in Hin as (base & Hbase & ->).
  do 3 right. split_and!; [done..|]. by exists names, base.
Qed.

End MainFacts.

Lemma main_extract_file_inv_witness :
  main sample_os_Stat sample_os_ReadDir ["crawl"; "ignored"]
  = main_runs ["crawl/part1"; "crawl/part2"]
  ∧ "crawl/part2" ∈ ["crawl/part1"; "crawl/part2"]
  ∧ ∃ arg rest, ["crawl"; "ignored"] = arg :: rest
      ∧ (arg = "crawl/part2" +:+ ".warc.gz"
         ∨ arg = "crawl/part2" +:+ ".warc.os.cdx.gz"
         ∨ arg = "crawl/part2" +:+ ".warc."
         ∨ (strings_HasSuffix arg ".warc.gz" = false
            ∧ strings_HasSuffix arg ".warc.os.cdx.gz" = false
            ∧ strings_HasSuffix arg ".warc." = false
            ∧ sample_os_Stat arg = inl true
            ∧ ∃ names base,
                sample_os_ReadDir arg = inl names
                ∧ base +:+ ".warc.gz" ∈ names
                ∧ "crawl/part2" = arg +:+ "/" +:+ base)).
Proof.
  assert ("crawl/part2" ∈ ["crawl/part1"; "crawl/part2"]) as Hin
    by (apply list_elem_of_In; simpl; by right; left).
  split; [by vm_compute|]. split; [done|].
  apply (main_extract_file_inv sample_os_Stat sample_os_ReadDir
           ["crawl"; "ignored"] ["crawl/part1"; "crawl/part2"] "crawl/part2");
    [by vm_compute|done].
Defined.

(** * The second source file's convertLevelData *)

Section LegacyFacts.

Context (Decompress : list byte → option (list byte)).

Lemma Legacy_convertLevelData_unfold id data w :
  LegacyPipeline.convertLevelData Decompress id data w =
  match io w (calls w) with
  | Some e => (Ret (Some e), set_calls (S (calls w)) w)
  | None =>
      let w2 := set_stage (<[output_path id := writing]> (stage w))
                  (set_fs (<[output_path id := []]> (fs w))
                          (set_calls (S (S (calls w))) w)) in
      match io w (S (calls w)) with
      | Some e => (Ret (Some e), (file_Close (output_path id) w2).2)
      | None =>
          closing (output_path id)
            match Legacy.splitAsh0Bundle data with
            | Halt h => (Halt h, w2)
            | Ret splitData =>
                if decide (length splitData ≠ length fileNames)
                then (Ret (Some (errors_New "failed to split data")), w2)
                else write_entries Decompress (output_path id) splitData 0 fileNames w2
            end
      end
  end.
Proof.
  unfold LegacyPipeline.convertLevelData.
  rewrite create_defer_unfold.
  destruct (io w (calls w)); [done|]. cbv zeta.
  destruct (io w (S (calls w))); [done|]. f_equal.
  rewrite bindM_unfold. unfold lift at 1.
  destruct (Legacy.splitAsh0Bundle data) as [splitData|h]; [|done].
  by case_decide.
Qed.

(** X24.  In the second source file, which has no test of the first line,
    a nil result of [convertLevelData] whose three deferred [Close] calls
    (the eleventh to thirteenth input/output calls, whose errors the code
    drops) succeed comes with a complete archive of exactly four entries,
    named after [fileNames] in order, each with the size and the bytes of
    the decoded segment at its position. *)
Theorem Legacy_convertLevelData_archive id data w w' :
  LegacyPipeline.convertLevelData Decompress id data w = (Ret None, w') →
  (∀ k, 10 ≤ k < 13 → io w (calls w + k) = None) →
  ∃ segs ds es,
    Legacy.splitAsh0Bundle data = Ret segs
    ∧ Forall2 (λ seg d, Decompress seg = Some d) segs ds
    ∧ stage w' !! output_path id = Some complete
    ∧ fs w' !! output_path id = Some es
    ∧ map (λ e, Name (Header e)) es = fileNames
    ∧ Forall2 (λ e d, Size (Header e) = Z.of_nat (length d) ∧ Body e = d) es ds.
Proof.
  intros Hrun Hclose. rewrite Legacy_convertLevelData_unfold in Hrun.
  destruct (io w (calls w)); [done|].
  destruct (io w (S (calls w))); [done|]. cbv zeta in Hrun.
  apply closing_Ret_inv in Hrun as (w'' & Hrun & ->).
  destruct (Legacy.splitAsh0Bundle data) as [segs|h]; [|done].
  case_decide as Hlen; [done|].
  apply write_entries_nil_inv with (es := []) in Hrun
    as (ds & HF & Hds & ->); [|apply lookup_insert_eq].
  rewrite drop_0, <- Hlen, firstn_all in HF.
  exists segs, ds, (zip_with (entry_of (clock w)) fileNames ds).
  split_and!; [done|done| | | |].
  - apply deferred_Closes_complete; [apply lookup_insert_eq|].
    intros k Hk. simpl.
    replace (S (S (calls w + 8 + k))) with (calls w + (10 + k)) by lia.
    apply Hclose. lia.
  - rewrite fs_deferred_Closes. simpl.
    by rewrite insert_insert_eq, lookup_insert_eq.
  - destruct ds as [|d0 [|d1 [|d2 [|d3 [|]]]]]; done.
  - destruct ds as [|d0 [|d1 [|d2 [|d3 [|]]]]]; try done.
    repeat constructor.
Qed.

(** X25.  In the second source file a payload without any marker, such as
    an error page, crashes the program after the output file has been
    created: [convertLevelData] panics and leaves a file with no entry, on
    which the deferred [Close] calls run while the panic unwinds. *)
Theorem Legacy_convertLevelData_no_marker_panics id data w :
  strings_Contains data ASH0 = false → io_ok 2 w →
  LegacyPipeline.convertLevelData Decompress id data w
  = (Halt (runtime_panic (if cut_marker_tail data then index_out_of_range
                          else slice_bounds_out_of_range)),
     deferred_Closes (output_path id)
       (set_stage (<[output_path id := writing]> (stage w))
          (set_fs (<[output_path id := []]> (fs w)) (set_calls (calls w + 2) w)))).
Proof.
  intros Hn Hio. rewrite Legacy_convertLevelData_unfold.
  rewrite (io_ok_0 _ _ Hio), (io_ok_1 _ _ Hio). cbv zeta.
  assert (Legacy.splitAsh0Bundle data
          = Halt (runtime_panic (if cut_marker_tail data then index_out_of_range
                                 else slice_bounds_out_of_range))) as ->.
  { apply strings_Contains_false_Index in Hn.
    rewrite Legacy_splitAsh0Bundle_scan_rest.
    destruct (scan_rest data [] None) as [[acc cur]|h] eqn:E; cbn.
    - destruct (cut_marker_tail data) eqn:Hcut.
      { assert (scan_rest data [] None = Halt (runtime_panic index_out_of_range))
          by by apply scan_rest_halt.
        congruence. }
      apply scan_rest_none in E. rewrite Hn in E. by destruct E as [-> ->].
    - apply scan_rest_halt in E as [-> ->]. done. }
  unfold closing. cbn [fst snd runs_deferred]. do 5 f_equal. lia.
Qed.

End LegacyFacts.

Lemma Legacy_convertLevelData_archive_witness :
  let w' := (LegacyPipeline.convertLevelData sample_Decompress "lvl"
               (drop 19 payload_ok) w_old).2 in
  LegacyPipeline.convertLevelData sample_Decompress "lvl" (drop 19 payload_ok) w_old
  = (Ret None, w')
  ∧ (∀ k, 10 ≤ k < 13 → io w_old (calls w_old + k) = None)
  ∧ ∃ segs ds es,
      Legacy.splitAsh0Bundle (drop 19 payload_ok) = Ret segs
      ∧ Forall2 (λ seg d, sample_Decompress seg = Some d) segs ds
      ∧ stage w' !! output_path "lvl" = Some complete
      ∧ fs w' !! output_path "lvl" = Some es
      ∧ map (λ e, Name (Header e)) es = fileNames
      ∧ Forall2 (λ e d, Size (Header e) = Z.of_nat (length d) ∧ Body e = d) es ds.
Proof.
  cbv zeta. split; [by vm_compute|]. split; [by intros k _|].
  apply (Legacy_convertLevelData_archive sample_Decompress "lvl"
           (drop 19 payload_ok) w_old); [by vm_compute|by intros k _].
Defined.

Lemma Legacy_convertLevelData_no_marker_panics_witness :
  strings_Contains payload_404 ASH0 = false ∧ io_ok 2 w0
  ∧ LegacyPipeline.convertLevelData sample_Decompress "lvl" payload_404 w0
    = (Halt (runtime_panic slice_bounds_out_of_range),
       deferred_Closes (output_path "lvl")
         (set_stage (<[output_path "lvl" := writing]> (stage w0))
            (set_fs (<[output_path "lvl" := []]> (fs w0))
                    (set_calls (calls w0 + 2) w0)))).
Proof.
  split_and!; [by vm_compute|by intros k _|].
  apply (Legacy_convertLevelData_no_marker_panics sample_Decompress "lvl"
           payload_404 w0); [by vm_compute|by intros k _].
Defined.

(** * The record loop on the sample inputs *)

Lemma extract_file_counts_responses_witness :
  let records := [{| WARC_Type := "request"; WARC_Target_URI := "http://host/a";
                     Content := bytes "GET /a" |};
                  response "http://host/a" payload_ok;
                  response "http://host/b" payload_404] in
  let run := extract_file sample_Decompress sample_url_Parse records w_old in
  run = (Ret (), run.2)
  ∧ bar run.2
    = bar w_old + length (filter (λ r, WARC_Type r = "response") records).
Proof.
  cbv zeta. split; [by vm_compute|].
  apply (extract_file_counts_responses sample_Decompress sample_url_Parse).
  by vm_compute.
Defined.

Lemma extract_file_converts_witness :
  let record := response "http://host/a" payload_ok in
  let records := [response "http://host/b" payload_404] in
  let link := {| Path := "http://host/a" |} in
  let segs := [ASH0 ++ bytes "aa"; ASH0 ++ bytes "b"; ASH0 ++ bytes "ccc";
               ASH0 ++ bytes "d"] in
  let ds := [bytes "aa"; bytes "b"; bytes "ccc"; bytes "d"] in
  WARC_Type record = "response"
  ∧ sample_url_Parse (WARC_Target_URI record) = inl link
  ∧ ReadLine (Content record) = (status_200, false, None)
  ∧ strings_Contains status_200 ["2"; "0"; "0"]%byte = true
  ∧ splitAsh0Bundle (Content record) = Ret segs ∧ length segs = 4
  ∧ Forall2 (λ seg d, sample_Decompress seg = Some d) segs ds
  ∧ io_ok 11 w0
  ∧ extract_file sample_Decompress sample_url_Parse (record :: records) w0
    = extract_file sample_Decompress sample_url_Parse records
        (set_bar (bar w0 + 1)
           (deferred_Closes (output_path (baseName (Path link)))
              (set_stage (<[output_path (baseName (Path link)) := writing]> (stage w0))
                 (set_fs (<[output_path (baseName (Path link))
                            := zip_with (entry_of (clock w0)) fileNames ds]> (fs w0))
                         (set_calls (calls w0 + 11) w0))))).
Proof.
  cbv zeta.
  assert (Forall2 (λ seg d, sample_Decompress seg = Some d)
            [ASH0 ++ bytes "aa"; ASH0 ++ bytes "b"; ASH0 ++ bytes "ccc";
             ASH0 ++ bytes "d"]
            [bytes "aa"; bytes "b"; bytes "ccc"; bytes "d"]) as HF
    by (repeat constructor).
  split_and!; [by vm_compute..|done|by intros k _|].
  apply (extract_file_converts sample_Decompress sample_url_Parse
           (response "http://host/a" payload_ok)
           [response "http://host/b" payload_404]
           {| Path := "http://host/a" |} status_200 false
           [ASH0 ++ bytes "aa"; ASH0 ++ bytes "b"; ASH0 ++ bytes "ccc";
            ASH0 ++ bytes "d"]
           [bytes "aa"; bytes "b"; bytes "ccc"; bytes "d"] w0);
    [by vm_compute..|done|by intros k _].
Defined.

Lemma extract_file_counts_skipped_status_witness :
  let record := response "http://host/b" payload_404 in
  let link := {| Path := "http://host/b" |} in
  WARC_Type record = "response"
  ∧ sample_url_Parse (WARC_Target_URI record) = inl link
  ∧ ReadLine (Content record) = (status_404, false, None)
  ∧ strings_Contains status_404 ["2"; "0"; "0"]%byte = false
  ∧ io_ok 1 w0
  ∧ extract_file sample_Decompress sample_url_Parse [record] w0
    = extract_file sample_Decompress sample_url_Parse []
        (set_bar (bar w0 + 1) (set_calls (S (calls w0)) w0)).
Proof.
  cbv zeta. split_and!; [by vm_compute..|by intros k _|].
  apply (extract_file_counts_skipped_status sample_Decompress sample_url_Parse
           (response "http://host/b" payload_404) []
           {| Path := "http://host/b" |} status_404 false w0);
    [by vm_compute..|by intros k _].
Defined.

Lemma extract_file_empty_payload_witness :
  let record := response "http://host/c" [] in
  let link := {| Path := "http://host/c" |} in
  WARC_Type record = "response"
  ∧ sample_url_Parse (WARC_Target_URI record) = inl link
  ∧ Content record = [] ∧ io_ok 1 w0
  ∧ extract_file sample_Decompress sample_url_Parse
      [record; response "http://host/a" payload_ok] w0
    = (Halt (log_Fatal io_EOF), set_calls (S (calls w0)) w0).
Proof.
  cbv zeta. split_and!; [done..|by intros k _|].
  apply (extract_file_empty_payload sample_Decompress sample_url_Parse
           (response "http://host/c" [])
           [response "http://host/a" payload_ok]
           {| Path := "http://host/c" |} w0);
    [done..|by intros k _].
Defined.
